(** * A shallow embedding of the in-browser file converter

    The repository is one React component ([App]) that keeps a list of
    tracked files in component state and drives every file through
    ffmpeg.wasm.  This development embeds

    - the format table [IMAGE_FORMATS] and [getMimeType];
    - the tracked entry [ProcessedFile] and the four state updaters
      ([onDrop], [convertFile], [updateOutputFormat], the remove button);
    - [convertFile] as a program in a small state-and-exception monad over
      an abstract host (the ffmpeg instance, [fetchFile],
      [URL.createObjectURL], [Math.random]);
    - the user interface as a guarded transition system: an event is
      enabled exactly when the element carrying its handler is rendered.  *)

From Stdlib Require Import Ascii String.
From Stdlib.Strings Require Import Byte.
From stdpp Require Import base option list strings gmap.

Open Scope string_scope.
Open Scope list_scope.

(** ** Strings as the source uses them *)

Module Js.

(** [String.prototype.toLowerCase] on the ASCII range: the keys of the
    format table are ASCII, bytes outside [A-Z] are left as they are. *)
Definition lower_ascii (c : ascii) : ascii :=
  let n := nat_of_ascii c in
  if (65 <=? n)%nat && (n <=? 90)%nat then ascii_of_nat (n + 32) else c.

Fixpoint toLowerCase (s : string) : string :=
  match s with
  | EmptyString => EmptyString
  | String c s' => String (lower_ascii c) (toLowerCase s')
  end.

(** [s.startsWith(p)] *)
Definition startsWith (p s : string) : bool := String.prefix p s.

(** [s.includes(".")] for a one-character needle *)
Fixpoint includes (c : ascii) (s : string) : bool :=
  match s with
  | EmptyString => false
  | String a s' => Ascii.eqb a c || includes c s'
  end.

(** [s.split(".")] for a one-character separator: never empty. *)
Fixpoint split (c : ascii) (s : string) : list string :=
  match s with
  | EmptyString => [EmptyString]
  | String a s' =>
      if Ascii.eqb a c then EmptyString :: split c s'
      else match split c s' with
           | h :: t => String a h :: t
           | [] => [String a EmptyString]
           end
  end.

(** [xs.pop()!] on the result of a split *)
Definition pop (xs : list string) : string := List.last xs EmptyString.

(** A value that an expression of declared type [string] can hold at run
    time.  A property read on an object literal also finds the members
    inherited from [Object.prototype]; those are functions or objects,
    all of them truthy. *)
Inductive value : Type :=
| Str (s : string)
| Inherited (key : string).

Definition Object_prototype : list string :=
  [ "constructor"; "__proto__"; "hasOwnProperty"; "isPrototypeOf";
    "propertyIsEnumerable"; "toLocaleString"; "toString"; "valueOf";
    "__defineGetter__"; "__defineSetter__";
    "__lookupGetter__"; "__lookupSetter__" ].

(** [obj[key]] for an object literal with own string properties [own] *)
Definition get (own : gmap string string) (key : string) : option value :=
  match own !! key with
  | Some v => Some (Str v)
  | None =>
      if existsb (String.eqb key) Object_prototype
      then Some (Inherited key) else None
  end.

(** [v || d] where [v] may be [undefined] *)
Definition or_else (v : option value) (d : string) : value :=
  match v with
  | Some (Str "") | None => Str d
  | Some x => x
  end.

(** [xs.join(sep)] *)
Fixpoint join (sep : string) (xs : list string) : string :=
  match xs with
  | [] => EmptyString
  | [x] => x
  | x :: xs' => x +:+ sep +:+ join sep xs'
  end.

(** [xs.slice(0, -1)] *)
Definition slice_init (xs : list string) : list string := removelast xs.

(** [s.includes(p)] for a needle of any length *)
Fixpoint includes_string (p s : string) : bool :=
  String.prefix p s ||
  match s with
  | EmptyString => false
  | String _ s' => includes_string p s'
  end.

(** Truthiness of an optional string ([undefined] and the empty string are
    falsy). *)
Definition truthy (s : option string) : bool :=
  match s with
  | Some "" | None => false
  | Some _ => true
  end.

End Js.

(** ** The format table and MIME resolution *)

Record Format := { value : string; label : string; mime : string }.

Definition IMAGE_FORMATS : list Format :=
  [ {| value := "jpg";  label := "JPEG"; mime := "image/jpeg" |};
    {| value := "jpeg"; label := "JPEG"; mime := "image/jpeg" |};
    {| value := "png";  label := "PNG";  mime := "image/png" |};
    {| value := "webp"; label := "WebP"; mime := "image/webp" |};
    {| value := "gif";  label := "GIF";  mime := "image/gif" |};
    {| value := "bmp";  label := "BMP";  mime := "image/bmp" |};
    {| value := "tiff"; label := "TIFF"; mime := "image/tiff" |};
    {| value := "tif";  label := "TIFF"; mime := "image/tiff" |};
    {| value := "avif"; label := "AVIF"; mime := "image/avif" |};
    {| value := "ico";  label := "ICO";  mime := "image/x-icon" |} ].

Definition mimeMap : gmap string string :=
  list_to_map
    [ ("jpg", "image/jpeg"); ("jpeg", "image/jpeg"); ("png", "image/png");
      ("webp", "image/webp"); ("gif", "image/gif"); ("bmp", "image/bmp");
      ("tiff", "image/tiff"); ("tif", "image/tiff"); ("avif", "image/avif");
      ("ico", "image/x-icon") ].

Definition getMimeType (format : string) : Js.value :=
  match List.find (fun f => String.eqb (value f) (Js.toLowerCase format))
                  IMAGE_FORMATS with
  | Some formatInfo => Js.Str (mime formatInfo)
  | None => Js.or_else (Js.get mimeMap (Js.toLowerCase format)) "image/png"
  end.

(** ** The tracked entry *)

Record File := { name : string; type : string; bytes : list byte }.

Inductive Status := pending | converting | completed | error.

Record ProcessedFile := {
  file : File;
  id : string;
  status : Status;
  preview : string;
  outputUrl : option string;
  outputFormat : option string;
}.

#[global] Instance Status_eq_dec : EqDecision Status.
Proof. solve_decision. Defined.

(** [{ ...f, status: s }] *)
Definition with_status (s : Status) (f : ProcessedFile) : ProcessedFile :=
  {| file := file f; id := id f; status := s; preview := preview f;
     outputUrl := outputUrl f; outputFormat := outputFormat f |}.

(** [{ ...f, status: "completed", outputUrl: url }] *)
Definition with_completed (url : string) (f : ProcessedFile) : ProcessedFile :=
  {| file := file f; id := id f; status := completed; preview := preview f;
     outputUrl := Some url; outputFormat := outputFormat f |}.

(** [{ ...f, outputFormat: format }] *)
Definition with_outputFormat (format : string) (f : ProcessedFile) : ProcessedFile :=
  {| file := file f; id := id f; status := status f; preview := preview f;
     outputUrl := outputUrl f; outputFormat := Some format |}.

(** [prev.map((f) => (f.id === target ? upd(f) : f))], the shape of every
    update of the list but the append of [onDrop] and the filter of the
    remove button. *)
Definition map_id (target : string) (upd : ProcessedFile -> ProcessedFile)
    (prev : list ProcessedFile) : list ProcessedFile :=
  (fun f => if String.eqb (id f) target then upd f else f) <$> prev.

(** ** The host: ffmpeg.wasm and the browser *)

Inductive exn :=
| Rejected (by_call : string)      (* a rejected promise of the host *)
| Error (message : string).        (* [new Error(message)] *)

Inductive result (A : Type) :=
| Ok (a : A)
| Throw (e : exn).
Arguments Ok {A} a.
Arguments Throw {A} e.

(** What [ffmpeg.readFile] resolves to ([Uint8Array | string]). *)
Inductive FileData :=
| Uint8Array (data : list byte)
| Text (s : string).

Record Blob := { blob_parts : list byte; blob_type : Js.value }.

(** The calls a conversion can issue.  The host is opaque: every call may
    reject, and what it answers may depend on everything that happened
    before, which is what the host state [S] stands for. *)
Class Host (S : Type) := {
  host_fetchFile : File -> S -> result (list byte) * S;
  host_writeFile : string -> list byte -> S -> result unit * S;
  host_exec : list string -> S -> result Z * S;
  host_readFile : string -> S -> result FileData * S;
  host_deleteFile : string -> S -> result unit * S;
  (** [URL.createObjectURL(file)] and [URL.createObjectURL(blob)] *)
  host_createObjectURL : File + Blob -> S -> string * S;
  (** [Math.random().toString(36).substring(7)] *)
  host_random_token : S -> string * S;
  (** [new Uint8Array(x)] for a primitive string [x]: the length [ToIndex(x)]
      of a zero-filled array, or a [RangeError]. *)
  host_ToIndex : string -> result nat;
}.

(** The calls issued to the ffmpeg instance, in order. *)
Inductive Call :=
| Call_writeFile (path : string) (data : list byte)
| Call_exec (args : list string)
| Call_readFile (path : string)
| Call_deleteFile (path : string).

(** ** The component state and the monad of its handlers *)

Record World (S : Type) := {
  host : S;
  files : list ProcessedFile;               (* [useState<ProcessedFile[]>] *)
  calls : list Call;                        (* calls issued to ffmpeg *)
  console : list (string * exn);            (* [console.error] *)
  tokens : list string;                     (* ids drawn so far *)
}.
Arguments host {S} _.
Arguments files {S} _.
Arguments calls {S} _.
Arguments console {S} _.
Arguments tokens {S} _.

Definition M (S A : Type) : Type := World S -> result A * World S.

Declare Scope js_scope.
Delimit Scope js_scope with js.

Section Monad.
Context {S : Type}.

Definition ret {A} (a : A) : M S A := fun w => (Ok a, w).

Definition throw {A} (e : exn) : M S A := fun w => (Throw e, w).

Definition bind {A B} (m : M S A) (k : A -> M S B) : M S B :=
  fun w => match m w with
           | (Ok a, w') => k a w'
           | (Throw e, w') => (Throw e, w')
           end.

(** [try { body } catch (err) { handler }] *)
Definition try_catch {A} (body : M S A) (handler : exn -> M S A) : M S A :=
  fun w => match body w with
           | (Ok a, w') => (Ok a, w')
           | (Throw e, w') => handler e w'
           end.

(** [try { body } finally { cleanup }] *)
Definition try_finally {A} (body : M S A) (cleanup : M S unit) : M S A :=
  fun w => match body w with
           | (r, w') =>
               match cleanup w' with
               | (Ok _, w'') => (r, w'')
               | (Throw e, w'') => (Throw e, w'')
               end
           end.

(** [setFiles((prev) => upd(prev))] *)
Definition setFiles (upd : list ProcessedFile -> list ProcessedFile) : M S unit :=
  fun w => (Ok tt, {| host := host w; files := upd (files w); calls := calls w;
                      console := console w; tokens := tokens w |}).

(** [console.error(label, err)] *)
Definition console_error (label : string) (err : exn) : M S unit :=
  fun w => (Ok tt, {| host := host w; files := files w; calls := calls w;
                      console := console w ++ [(label, err)]; tokens := tokens w |}).

(** Lifting a host call, recording it when it is a call to ffmpeg. *)
Definition host_call {A} (c : list Call) (op : S -> result A * S) : M S A :=
  fun w => match op (host w) with
           | (r, h') => (r, {| host := h'; files := files w; calls := calls w ++ c;
                               console := console w; tokens := tokens w |})
           end.

Fixpoint mapM {A B} (f : A -> M S B) (xs : list A) : M S (list B) :=
  match xs with
  | [] => ret []
  | x :: xs' => bind (f x) (fun y => bind (mapM f xs') (fun ys => ret (y :: ys)))
  end.

End Monad.

Notation "'let*' x ':=' m 'in' k" := (bind m (fun x => k))
  (at level 10, x name, m at level 100, k at level 200) : js_scope.
Notation "m ';;' k" := (bind m (fun _ => k))
  (at level 100, k at level 200, right associativity) : js_scope.

(** ** The handlers of [App] *)

Section App.
Context {S : Type} `{Host S}.
Open Scope js_scope.

(** *** Host calls *)

Definition fetchFile (f : File) : M S (list byte) :=
  host_call [] (host_fetchFile f).

Definition ffmpeg_writeFile (path : string) (data : list byte) : M S unit :=
  host_call [Call_writeFile path data] (host_writeFile path data).

Definition ffmpeg_exec (args : list string) : M S Z :=
  host_call [Call_exec args] (host_exec args).

Definition ffmpeg_readFile (path : string) : M S FileData :=
  host_call [Call_readFile path] (host_readFile path).

Definition ffmpeg_deleteFile (path : string) : M S unit :=
  host_call [Call_deleteFile path] (host_deleteFile path).

Definition URL_createObjectURL (x : File + Blob) : M S string :=
  host_call [] (fun h => let (u, h') := host_createObjectURL x h in (Ok u, h')).

Definition random_token : M S string :=
  fun w => let (t, h') := host_random_token (host w) in
           (Ok t, {| host := h'; files := files w; calls := calls w;
                     console := console w; tokens := tokens w ++ [t] |}).

(** [new Uint8Array(data as any)] when [data] is not a [Uint8Array] *)
Definition new_Uint8Array (x : string) : M S (list byte) :=
  match host_ToIndex x with
  | Ok n => ret (replicate n x00%byte)
  | Throw e => throw e
  end.

(** *** [onDrop] *)

Definition isImage (f : File) : bool := Js.startsWith "image/" (type f).

(** The arrow function that [onDrop] maps over the accepted files. *)
Definition newFile (file : File) : M S ProcessedFile :=
  let isImage := isImage file in
  let defaultFormat := if isImage then "png" else "mp4" in
  let* id := random_token in
  let* preview := URL_createObjectURL (inl file) in
  ret {| file := file; id := id; status := pending;
         preview := preview; outputUrl := None;
         outputFormat := Some defaultFormat |}.

Definition onDrop (acceptedFiles : list File) : M S unit :=
  let* newFiles := mapM newFile acceptedFiles in
  setFiles (fun prev => prev ++ newFiles).

(** *** [convertFile] *)

Definition safeExt (fileObj : ProcessedFile) : string :=
  if Js.includes "." (name (file fileObj))
  then Js.pop (Js.split "." (name (file fileObj)))
  else "bin".

Definition inputName (fileObj : ProcessedFile) : string :=
  "input_" +:+ id fileObj +:+ "." +:+ safeExt fileObj.

(** [fileObj.outputFormat || "png"] *)
Definition requestedFormat (fileObj : ProcessedFile) : string :=
  match outputFormat fileObj with
  | Some "" | None => "png"
  | Some fmt => fmt
  end.

Definition outputName (fileObj : ProcessedFile) : string :=
  "output_" +:+ id fileObj +:+ "." +:+ requestedFormat fileObj.

(** Up to the first [await]: the transition to [converting]. *)
Definition convertFile_begin (fileObj : ProcessedFile) : M S unit :=
  setFiles (map_id (id fileObj) (with_status converting)).

(** The body of the [try] block. *)
Definition convertFile_try (fileObj : ProcessedFile) : M S unit :=
  let* fileData := fetchFile (file fileObj) in
  ffmpeg_writeFile (inputName fileObj) fileData ;;
  (if isImage (file fileObj) then
     let args := ["-i"; inputName fileObj] in
     let args :=
       if existsb (String.eqb (requestedFormat fileObj)) ["jpg"; "jpeg"; "webp"]
       then args ++ ["-q:v"; "2"] else args in
     let args := args ++ [outputName fileObj] in
     ffmpeg_exec args
   else
     ffmpeg_exec
       [ "-i"; inputName fileObj; "-c:v"; "libx264"; "-preset"; "ultrafast";
         "-crf"; "23"; "-c:a"; "aac"; outputName fileObj ]) ;;
  let* data := ffmpeg_readFile (outputName fileObj) in
  let mimeType := getMimeType (requestedFormat fileObj) in
  let* blobData :=
    match data with
    | Uint8Array d => ret d
    | Text x => new_Uint8Array x
    end in
  if (length blobData =? 0)%nat
  then throw (Error "FFmpeg produced an empty file.")
  else
    let cleanBuffer := blobData in
    let blob := {| blob_parts := cleanBuffer; blob_type := mimeType |} in
    let* url := URL_createObjectURL (inr blob) in
    setFiles (map_id (id fileObj) (with_completed url)).

(** The [catch] block. *)
Definition convertFile_catch (fileObj : ProcessedFile) (err : exn) : M S unit :=
  console_error "Conversion Error:" err ;;
  setFiles (map_id (id fileObj) (with_status error)).

(** The [finally] block. *)
Definition convertFile_finally (fileObj : ProcessedFile) : M S unit :=
  try_catch
    (ffmpeg_deleteFile (inputName fileObj) ;;
     ffmpeg_deleteFile (outputName fileObj))
    (fun _ => ret tt).

(** From the first [await] to the end. *)
Definition convertFile_resume (fileObj : ProcessedFile) : M S unit :=
  try_finally
    (try_catch (convertFile_try fileObj) (convertFile_catch fileObj))
    (convertFile_finally fileObj).

Definition convertFile (fileObj : ProcessedFile) : M S unit :=
  convertFile_begin fileObj ;; convertFile_resume fileObj.

(** *** What a conversion asks of the host

    The argument list of the one [exec] call, as the two branches of
    [convertFile] build it. *)
Definition execArgs (fileObj : ProcessedFile) : list string :=
  if isImage (file fileObj) then
    let args := ["-i"; inputName fileObj] in
    let args :=
      if existsb (String.eqb (requestedFormat fileObj)) ["jpg"; "jpeg"; "webp"]
      then args ++ ["-q:v"; "2"] else args in
    args ++ [outputName fileObj]
  else
    [ "-i"; inputName fileObj; "-c:v"; "libx264"; "-preset"; "ultrafast";
      "-crf"; "23"; "-c:a"; "aac"; outputName fileObj ].

(** From host state [h0] the write and the command succeed and the read
    of the output is answered by [r], leaving the host in [h4]. *)
Definition steps_reach_read (fileObj : ProcessedFile) (h0 : S)
    (r : result FileData) (h4 : S) : Prop :=
  exists data h1 h2 rc h3,
    host_fetchFile (file fileObj) h0 = (Ok data, h1) /\
    host_writeFile (inputName fileObj) data h1 = (Ok tt, h2) /\
    host_exec (execArgs fileObj) h2 = (Ok rc, h3) /\
    host_readFile (outputName fileObj) h3 = (r, h4).

(** Write, command and read all succeed and the read returns the byte
    buffer [out]. *)
Definition steps_succeed (fileObj : ProcessedFile) (h0 : S)
    (out : list byte) (h4 : S) : Prop :=
  steps_reach_read fileObj h0 (Ok (Uint8Array out)) h4.

(** One of the steps between the write and the wrapping of the output
    fails. *)
Inductive steps_fail (fileObj : ProcessedFile) (h0 : S) : Prop :=
| fetch_fails e h1 :
    host_fetchFile (file fileObj) h0 = (Throw e, h1) ->
    steps_fail fileObj h0
| write_fails data h1 e h2 :
    host_fetchFile (file fileObj) h0 = (Ok data, h1) ->
    host_writeFile (inputName fileObj) data h1 = (Throw e, h2) ->
    steps_fail fileObj h0
| exec_fails data h1 h2 e h3 :
    host_fetchFile (file fileObj) h0 = (Ok data, h1) ->
    host_writeFile (inputName fileObj) data h1 = (Ok tt, h2) ->
    host_exec (execArgs fileObj) h2 = (Throw e, h3) ->
    steps_fail fileObj h0
| read_fails e h4 :
    steps_reach_read fileObj h0 (Throw e) h4 ->
    steps_fail fileObj h0
| output_empty h4 :
    steps_succeed fileObj h0 [] h4 ->
    steps_fail fileObj h0
| output_text_empty x h4 :
    steps_reach_read fileObj h0 (Ok (Text x)) h4 ->
    host_ToIndex x = Ok 0 ->
    steps_fail fileObj h0
| output_text_range x e h4 :
    steps_reach_read fileObj h0 (Ok (Text x)) h4 ->
    host_ToIndex x = Throw e ->
    steps_fail fileObj h0.

(** The handle that [URL.createObjectURL] returns for the output [out]
    when asked in host state [h]. *)
Definition output_url (fileObj : ProcessedFile) (out : list byte) (h : S) : string :=
  fst (host_createObjectURL
         (inr {| blob_parts := out;
                 blob_type := getMimeType (requestedFormat fileObj) |}) h).

(** *** [updateOutputFormat] and the remove button *)

Definition updateOutputFormat (fileId format : string) : M S unit :=
  setFiles (map_id fileId (with_outputFormat format)).

(** [setFiles((prev) => prev.filter((item) => item.id !== f.id))] *)
Definition removeFile (f : ProcessedFile) : M S unit :=
  setFiles (filter (fun item => id item <> id f)).

End App.

(** ** The user interface as a guarded transition system

    A handler can run only while the element that carries it is rendered,
    and React re-renders between two events, so an event is enabled on the
    current list.  A conversion is split at its first [await]: the click
    runs [convertFile_begin], the rest runs later, after any number of
    other events.  The rest touches the list in one place only, so it is
    run in one go; what the engine was asked by other conversions in the
    meantime only shows in its answers, which are arbitrary.  The readiness
    flag only hides the drop zone; it is not part of this model. *)

#[global] Instance byte_eq_dec : EqDecision byte.
Proof. intros x y. destruct (Byte.eqb x y) eqn:E.
  - left. now apply Byte.byte_dec_bl.
  - right. intros ->. now rewrite Byte.byte_dec_lb in E.
Defined.

#[global] Instance File_eq_dec : EqDecision File.
Proof. solve_decision. Defined.

#[global] Instance ProcessedFile_eq_dec : EqDecision ProcessedFile.
Proof. solve_decision. Defined.

(** [xs.findIndex(p)], [None] for [-1] *)
Fixpoint findIndex {A} (p : A -> bool) (xs : list A) : option nat :=
  match xs with
  | [] => None
  | x :: xs' => if p x then Some 0 else S <$> findIndex p xs'
  end.

(** The options of the format selector: [IMAGE_FORMATS] without the
    entries whose label already occurred. *)
Definition selectOptions : list Format :=
  snd <$> List.filter
            (fun '(index, format) =>
               bool_decide
                 (findIndex (fun f => String.eqb (label f) (label format)) IMAGE_FORMATS
                  = Some index))
            (imap pair IMAGE_FORMATS).

Inductive Event :=
| Drop (acceptedFiles : list File)
| Select (f : ProcessedFile) (format : string)   (* [onChange] of the selector *)
| ClickConvert (f : ProcessedFile)
| Resume (f : ProcessedFile)                     (* a started conversion runs on *)
| ClickRemove (f : ProcessedFile).

Record AppState (S : Type) := {
  world : World S;
  running : list ProcessedFile;      (* conversions begun and not yet resumed *)
}.
Arguments world {S} _.
Arguments running {S} _.

(** [xs] without the first occurrence of [f] *)
Fixpoint take_out (f : ProcessedFile) (xs : list ProcessedFile) : list ProcessedFile :=
  match xs with
  | [] => []
  | x :: xs' => if bool_decide (x = f) then xs' else x :: take_out f xs'
  end.

Section UI.
Context {S : Type} `{Host S}.

Definition initial (h : S) : AppState S :=
  {| world := {| host := h; files := []; calls := []; console := []; tokens := [] |};
     running := [] |}.

(** Which elements the render shows for the current list. *)
Definition enabled (a : AppState S) (e : Event) : bool :=
  match e with
  | Drop _ => true
  | Select f format =>
      bool_decide (f ∈ files (world a))
      && isImage (file f) && bool_decide (status f = pending)
      && bool_decide (format ∈ value <$> selectOptions)
  | ClickConvert f =>
      bool_decide (f ∈ files (world a)) && bool_decide (status f = pending)
  | Resume f => bool_decide (f ∈ running a)
  | ClickRemove f => bool_decide (f ∈ files (world a))
  end.

Definition handle (a : AppState S) (e : Event) : AppState S :=
  match e with
  | Drop acceptedFiles =>
      {| world := snd (onDrop acceptedFiles (world a)); running := running a |}
  | Select f format =>
      {| world := snd (updateOutputFormat (id f) format (world a));
         running := running a |}
  | ClickConvert f =>
      {| world := snd (convertFile_begin f (world a));
         running := running a ++ [f] |}
  | Resume f =>
      {| world := snd (convertFile_resume f (world a));
         running := take_out f (running a) |}
  | ClickRemove f =>
      {| world := snd (removeFile f (world a)); running := running a |}
  end.

Definition step (a : AppState S) (e : Event) : option (AppState S) :=
  if enabled a e then Some (handle a e) else None.

Fixpoint run (a : AppState S) (es : list Event) : option (AppState S) :=
  match es with
  | [] => Some a
  | e :: es' => match step a e with
                | Some a' => run a' es'
                | None => None
                end
  end.

End UI.

(** The status of the entry with a given id (the first one, should the
    random tokens ever collide). *)
Definition status_of (i : string) (l : list ProcessedFile) : option Status :=
  status <$> List.find (fun f => String.eqb (id f) i) l.

(** The order [pending -> converting -> {completed, error}]: a status may
    stay or advance, and a terminal status only stays. *)
Definition status_le (a b : Status) : bool :=
  match a, b with
  | pending, _ => true
  | converting, pending => false
  | converting, _ => true
  | completed, completed => true
  | error, error => true
  | _, _ => false
  end.

(** An update from [l] to [l'] that is confined to the entries with id
    [target]: same length, same ids, every other entry as it was, and one
    position changed at most when the ids are distinct. *)
Definition confined_to (target : string) (l l' : list ProcessedFile) : Prop :=
  length l' = length l /\
  id <$> l' = id <$> l /\
  (forall i g, l !! i = Some g -> id g <> target -> l' !! i = Some g) /\
  (NoDup (id <$> l) ->
   forall i j g g', l !! i = Some g -> l' !! i <> Some g ->
                    l !! j = Some g' -> l' !! j <> Some g' -> i = j).

(** What every state reached through the interface satisfies as long as
    the random tokens do not repeat. *)
Record consistent {S : Type} (a : AppState S) : Prop := {
  ids_distinct : NoDup (id <$> files (world a));
  ids_drawn : forall f, f ∈ files (world a) -> id f ∈ tokens (world a);
  running_drawn : forall t, t ∈ running a -> id t ∈ tokens (world a);
  running_distinct : NoDup (id <$> running a);
  running_converting :
    forall t f, t ∈ running a -> f ∈ files (world a) -> id f = id t ->
                status f = converting;
  handle_only_completed :
    forall f, f ∈ files (world a) -> status f <> completed -> outputUrl f = None;
}.

(** ** A scripted host

    A host whose answers are read off a list: [Fail] makes the next call
    reject, anything else lets it succeed; where the call returns data the
    reply can carry it. *)

Inductive Reply :=
| Fail
| Fine
| Bytes (data : list byte)
| Chars (s : string).

#[global] Instance scripted : Host (list Reply) := {|
  host_fetchFile f s :=
    match s with
    | Fail :: s' => (Throw (Rejected "fetchFile"), s')
    | _ :: s' => (Ok (bytes f), s')
    | [] => (Ok (bytes f), [])
    end;
  host_writeFile _ _ s :=
    match s with
    | Fail :: s' => (Throw (Rejected "writeFile"), s')
    | _ :: s' => (Ok tt, s')
    | [] => (Ok tt, [])
    end;
  host_exec _ s :=
    match s with
    | Fail :: s' => (Throw (Rejected "exec"), s')
    | _ :: s' => (Ok 0%Z, s')
    | [] => (Ok 0%Z, [])
    end;
  host_readFile _ s :=
    match s with
    | Fail :: s' => (Throw (Rejected "readFile"), s')
    | Bytes d :: s' => (Ok (Uint8Array d), s')
    | Chars t :: s' => (Ok (Text t), s')
    | Fine :: s' => (Ok (Uint8Array [x2a%byte]), s')
    | [] => (Ok (Uint8Array [x2a%byte]), [])
    end;
  host_deleteFile _ s :=
    match s with
    | Fail :: s' => (Throw (Rejected "deleteFile"), s')
    | _ :: s' => (Ok tt, s')
    | [] => (Ok tt, [])
    end;
  host_createObjectURL _ s :=
    match s with
    | Chars u :: s' => (u, s')
    | _ :: s' => ("blob:0", s')
    | [] => ("blob:0", [])
    end;
  host_random_token s :=
    match s with
    | Chars t :: s' => (t, s')
    | _ :: s' => ("", s')
    | [] => ("", [])
    end;
  host_ToIndex _ := Ok 0;
|}.

Definition empty_world (script : list Reply) (l : list ProcessedFile) : World (list Reply) :=
  {| host := script; files := l; calls := []; console := []; tokens := [] |}.

Definition photo : File :=
  {| name := "photo.heic"; type := "image/heic"; bytes := [x01%byte; x02%byte] |}.

Definition clip : File :=
  {| name := "clip.mov"; type := "video/quicktime"; bytes := [x03%byte] |}.

Definition entry (f : File) (i : string) (s : Status) (fmt : string) : ProcessedFile :=
  {| file := f; id := i; status := s; preview := "blob:p"; outputUrl := None;
     outputFormat := Some fmt |}.

Definition demo_app (script : list Reply) (l : list ProcessedFile) : AppState (list Reply) :=
  {| world := empty_world script l; running := [] |}.

(** The entry that [onDrop] creates for [photo] when the host answers the
    token "a" and the preview handle "blob:1". *)
Definition dropped_photo (s : Status) : ProcessedFile :=
  {| file := photo; id := "a"; status := s; preview := "blob:1";
     outputUrl := None; outputFormat := Some "png" |}.

(** ** What the component renders for an entry

    One row per tracked entry.  The row keeps what decides which handlers
    can run and what the user is offered; the size text (a floating-point
    division) and the styling are left out. *)

Inductive Icon := FileVideo | FileImage.

(** [f.outputFormat || (isImage ? "png" : "mp4")] *)
Definition currentFormat (f : ProcessedFile) : string :=
  match outputFormat f with
  | Some "" | None => if isImage (file f) then "png" else "mp4"
  | Some fmt => fmt
  end.

(** [f.file.name.split(".").slice(0, -1).join(".")] *)
Definition baseName (f : ProcessedFile) : string :=
  Js.join "." (Js.slice_init (Js.split "." (name (file f)))).

(** The [download] attribute of the link. *)
Definition downloadName (f : ProcessedFile) : string :=
  "converted_" +:+ baseName f +:+ "." +:+ currentFormat f.

Record Row := {
  row_icon : Icon;
  row_name : string;
  row_convert : bool;                            (* the convert button *)
  row_spinner : bool;                            (* the progress indicator *)
  row_download : option (string * string);       (* [href] and [download] *)
  row_failed : bool;                             (* the red text *)
  row_remove : bool;                             (* the remove button *)
  row_selector : option (string * list Format);  (* [value] and options *)
}.

Definition renderRow (f : ProcessedFile) : Row :=
  {| row_icon :=
       if Js.includes_string "video" (type (file f)) then FileVideo else FileImage;
     row_name := name (file f);
     row_convert := bool_decide (status f = pending);
     row_spinner := bool_decide (status f = converting);
     row_download :=
       match outputUrl f with
       | Some url =>
           if bool_decide (status f = completed) && Js.truthy (outputUrl f)
           then Some (url, downloadName f) else None
       | None => None
       end;
     row_failed := bool_decide (status f = completed) && negb (Js.truthy (outputUrl f));
     row_remove := true;
     row_selector :=
       if isImage (file f) && bool_decide (status f = pending)
       then Some (currentFormat f, selectOptions) else None |}.

(** The filter of the selector's options, for any table: an entry stays
    when its index is the first index of its label. *)
Definition uniqueByLabel (self : list Format) : list Format :=
  snd <$> List.filter
            (fun '(index, format) =>
               bool_decide
                 (findIndex (fun f => String.eqb (label f) (label format)) self
                  = Some index))
            (imap pair self).

(** ** Loading the engine *)

Class LoaderHost (S : Type) := {
  (** [toBlobURL(url, mimeType)] *)
  host_toBlobURL : string -> string -> S -> result string * S;
  (** [ffmpeg.load({ coreURL, wasmURL })] *)
  host_load : string -> string -> S -> result unit * S;
}.

Record Page (S : Type) := {
  app : AppState S;
  ready : bool;                      (* [useState(false)] *)
  mounted : bool;                    (* the mount effect has run *)
  console_log : list string;         (* [console.log] *)
}.
Arguments app {S} _.
Arguments ready {S} _.
Arguments mounted {S} _.
Arguments console_log {S} _.

Inductive PageEvent :=
| Mount                              (* [useEffect(() => { loadFFmpeg() }, [])] *)
| Ui (e : Event).

Section Loader.
Context {S : Type} `{Host S} `{LoaderHost S}.

(** The two asset urls that the bundler resolves ([@ffmpeg/core?url] and
    [@ffmpeg/core/wasm?url]). *)
Variables coreURL wasmURL : string.

Definition toBlobURL (url mimeType : string) : M S string :=
  host_call [] (host_toBlobURL url mimeType).

Definition ffmpeg_load (core wasm : string) : M S unit :=
  host_call [] (host_load core wasm).

(** The awaited calls of the [try] block of [loadFFmpeg]. *)
Definition loadFFmpeg_try : M S unit :=
  bind (toBlobURL coreURL "text/javascript") (fun coreBlobURL =>
  bind (toBlobURL wasmURL "application/wasm") (fun wasmBlobURL =>
  ffmpeg_load coreBlobURL wasmBlobURL)).

Definition loadFFmpeg (p : Page S) : Page S :=
  match loadFFmpeg_try (world (app p)) with
  | (Ok _, w) =>
      {| app := {| world := w; running := running (app p) |};
         ready := true;
         mounted := mounted p;
         console_log := console_log p ++ ["FFmpeg успешно загружен"] |}
  | (Throw err, w) =>
      {| app := {| world := snd (console_error "Критическая ошибка загрузки FFmpeg:" err w);
                   running := running (app p) |};
         ready := ready p;
         mounted := mounted p;
         console_log := console_log p |}
  end.

Definition initial_page (h : S) : Page S :=
  {| app := initial h; ready := false; mounted := false; console_log := [] |}.

(** The drop zone is rendered only when [ready]; the rows are rendered in
    both cases.  The load runs in one go: while it waits nothing is
    tracked and the drop zone is hidden, so no handler can run. *)
Definition page_enabled (p : Page S) (e : PageEvent) : bool :=
  match e with
  | Mount => negb (mounted p)
  | Ui (Drop _) => ready p
  | Ui e => enabled (app p) e
  end.

Definition page_handle (p : Page S) (e : PageEvent) : Page S :=
  match e with
  | Mount =>
      loadFFmpeg {| app := app p; ready := ready p; mounted := true;
                    console_log := console_log p |}
  | Ui e =>
      {| app := handle (app p) e; ready := ready p; mounted := mounted p;
         console_log := console_log p |}
  end.

Definition page_step (p : Page S) (e : PageEvent) : option (Page S) :=
  if page_enabled p e then Some (page_handle p e) else None.

Fixpoint page_run (p : Page S) (es : list PageEvent) : option (Page S) :=
  match es with
  | [] => Some p
  | e :: es' => match page_step p e with
                | Some p' => page_run p' es'
                | None => None
                end
  end.

End Loader.

(** The scripted host answers the loader's calls like the others. *)
#[global] Instance scripted_loader : LoaderHost (list Reply) := {|
  host_toBlobURL _ _ s :=
    match s with
    | Fail :: s' => (Throw (Rejected "toBlobURL"), s')
    | Chars u :: s' => (Ok u, s')
    | _ :: s' => (Ok "blob:0", s')
    | [] => (Ok "blob:0", [])
    end;
  host_load _ _ s :=
    match s with
    | Fail :: s' => (Throw (Rejected "load"), s')
    | _ :: s' => (Ok tt, s')
    | [] => (Ok tt, [])
    end;
|}.

(** How many of the four status elements (button, progress indicator,
    download link, red text) a row shows. *)
Definition status_elements (r : Row) : nat :=
  Nat.b2n (row_convert r) + Nat.b2n (row_spinner r)
  + match row_download r with Some _ => 1 | None => 0 end
  + Nat.b2n (row_failed r).

(** The requested format of a tracked entry is one the interface can have
    put there: an option of the selector for an image-typed file, the
    default "mp4" otherwise. *)
Definition format_offered (f : ProcessedFile) : Prop :=
  exists fmt, outputFormat f = Some fmt /\
              if isImage (file f) then fmt ∈ value <$> selectOptions else fmt = "mp4".

(** A conversion under way and the tracked entry with its id agree on the
    file and on the requested format. *)
Definition running_agrees {S : Type} (a : AppState S) : Prop :=
  forall t f, t ∈ running a -> f ∈ files (world a) -> id f = id t ->
              file f = file t /\ outputFormat f = outputFormat t.

(** Once the conversion [t] has run on, the entries with its id have its
    file and its requested format and are not [pending]. *)
Definition converted_as {S : Type} (t : ProcessedFile) (a : AppState S) : Prop :=
  forall f, f ∈ files (world a) -> id f = id t ->
            file f = file t /\ outputFormat f = outputFormat t /\ status f <> pending.

Section LoaderSteps.
Context {S : Type} `{LoaderHost S}.
Variables coreURL wasmURL : string.

(** The three awaited calls of [loadFFmpeg] all succeed from host state
    [h0], leaving the host in [h3]. *)
Definition load_succeeds (h0 h3 : S) : Prop :=
  exists core h1 wasm h2,
    host_toBlobURL coreURL "text/javascript" h0 = (Ok core, h1) /\
    host_toBlobURL wasmURL "application/wasm" h1 = (Ok wasm, h2) /\
    host_load core wasm h2 = (Ok tt, h3).

(** One of them rejects with [err]. *)
Inductive load_fails (h0 : S) (err : exn) : Prop :=
| core_url_fails h1 :
    host_toBlobURL coreURL "text/javascript" h0 = (Throw err, h1) ->
    load_fails h0 err
| wasm_url_fails core h1 h2 :
    host_toBlobURL coreURL "text/javascript" h0 = (Ok core, h1) ->
    host_toBlobURL wasmURL "application/wasm" h1 = (Throw err, h2) ->
    load_fails h0 err
| engine_load_fails core h1 wasm h2 h3 :
    host_toBlobURL coreURL "text/javascript" h0 = (Ok core, h1) ->
    host_toBlobURL wasmURL "application/wasm" h1 = (Ok wasm, h2) ->
    host_load core wasm h2 = (Throw err, h3) ->
    load_fails h0 err.

End LoaderSteps.

(** States of the scripted host used to run the theorems: the photo is
    dropped, its conversion is started, and it has run to its end. *)
Definition photo_dropped : AppState (list Reply) :=
  {| world := {| host := []; files := [dropped_photo pending]; calls := [];
                 console := []; tokens := ["a"] |};
     running := [] |}.

Definition photo_converting : AppState (list Reply) :=
  {| world := {| host := []; files := [dropped_photo converting]; calls := [];
                 console := []; tokens := ["a"] |};
     running := [dropped_photo pending] |}.

Definition photo_converted : AppState (list Reply) :=
  {| world := {| host := [];
                 files := [with_completed "blob:0" (dropped_photo pending)];
                 calls := [ Call_writeFile "input_a.heic" [x01%byte; x02%byte];
                            Call_exec ["-i"; "input_a.heic"; "output_a.png"];
                            Call_readFile "output_a.png";
                            Call_deleteFile "input_a.heic";
                            Call_deleteFile "output_a.png" ];
                 console := []; tokens := ["a"] |};
     running := [] |}.

(** The page after a mount whose first call was rejected. *)
Definition page_not_loaded : Page (list Reply) :=
  {| app := {| world := {| host := []; files := []; calls := [];
                           console := [("Критическая ошибка загрузки FFmpeg:",
                                        Rejected "toBlobURL")];
                           tokens := [] |};
               running := [] |};
     ready := false; mounted := true; console_log := [] |}.

(** A run in which the token "a" is drawn a second time after the entry
    that first carried it was removed while its conversion was still
    under way.  The ids of the tracked entries are distinct in every state
    of the run. *)
Definition redrawn_clip : ProcessedFile :=
  {| file := clip; id := "a"; status := pending; preview := "blob:2";
     outputUrl := None; outputFormat := Some "mp4" |}.

Definition redraw_script : list Reply :=
  [ Chars "a"; Chars "blob:1";                  (* the first drop *)
    Chars "a"; Chars "blob:2";                  (* the second drop *)
    Fine; Fine; Fine; Fine; Chars "blob:OUT-OF-A"; Fine; Fine;
                                                (* the first conversion *)
    Fail ].                                     (* the second: fetch rejects *)

Definition redraw_events : list Event :=
  [ Drop [photo];
    ClickConvert (dropped_photo pending);
    ClickRemove (dropped_photo converting);
    Drop [clip];
    ClickConvert redrawn_clip;
    Resume (dropped_photo pending) ].

(** The state after [redraw_events], and after the second conversion has
    run on as well. *)
Definition redraw_state : AppState (list Reply) :=
  {| world := {| host := [Fail];
                 files := [with_completed "blob:OUT-OF-A" redrawn_clip];
                 calls := [ Call_writeFile "input_a.heic" [x01%byte; x02%byte];
                            Call_exec ["-i"; "input_a.heic"; "output_a.png"];
                            Call_readFile "output_a.png";
                            Call_deleteFile "input_a.heic";
                            Call_deleteFile "output_a.png" ];
                 console := []; tokens := ["a"; "a"] |};
     running := [redrawn_clip] |}.

Definition redraw_final : AppState (list Reply) :=
  {| world := {| host := [];
                 files := [with_status error (with_completed "blob:OUT-OF-A" redrawn_clip)];
                 calls := [ Call_writeFile "input_a.heic" [x01%byte; x02%byte];
                            Call_exec ["-i"; "input_a.heic"; "output_a.png"];
                            Call_readFile "output_a.png";
                            Call_deleteFile "input_a.heic";
                            Call_deleteFile "output_a.png";
                            Call_deleteFile "input_a.mov";
                            Call_deleteFile "output_a.mp4" ];
                 console := [("Conversion Error:", Rejected "fetchFile")];
                 tokens := ["a"; "a"] |};
     running := [] |}.

(** Every event of [es] is enabled in turn and the ids of the tracked
    entries are distinct in every state on the way. *)
Fixpoint distinct_along {S : Type} `{Host S} (a : AppState S) (es : list Event) : bool :=
  bool_decide (NoDup (id <$> files (world a))) &&
  match es with
  | [] => true
  | e :: es' => match step a e with
                | Some a' => distinct_along a' es'
                | None => false
                end
  end.

(** * Properties *)

(** ** MIME resolution *)

Lemma lower_ascii_idem c : Js.lower_ascii (Js.lower_ascii c) = Js.lower_ascii c.
Proof. destruct c as [[] [] [] [] [] [] [] []]; vm_compute; reflexivity. Qed.

Lemma toLowerCase_idem s : Js.toLowerCase (Js.toLowerCase s) = Js.toLowerCase s.
Proof. induction s as [|c s IH]; simpl; [done|]. by rewrite lower_ascii_idem, IH. Qed.

(** Resolution is case-insensitive. *)
Lemma getMimeType_toLowerCase s : getMimeType s = getMimeType (Js.toLowerCase s).
Proof. unfold getMimeType. by rewrite toLowerCase_idem. Qed.

Lemma find_value_None k :
  k ∉ (value <$> IMAGE_FORMATS) ->
  List.find (fun f => String.eqb (value f) k) IMAGE_FORMATS = None.
Proof.
  intros Hk. destruct (List.find _ _) as [f|] eqn:E; [|done].
  apply find_some in E as [Hin Heq]. apply String.eqb_eq in Heq. subst k.
  destruct Hk. apply list_elem_of_fmap. exists f. split; [done|].
  by apply list_elem_of_In.
Qed.

(** A format outside the table resolves to the default, unless its
    lower-cased form names a member that the lookup object inherits. *)
Lemma getMimeType_default s :
  Js.toLowerCase s ∉ (value <$> IMAGE_FORMATS) ->
  Js.toLowerCase s ∉ Js.Object_prototype ->
  getMimeType s = Js.Str "image/png".
Proof.
  intros Htab Hproto. unfold getMimeType. rewrite find_value_None by done.
  unfold Js.get.
  assert (mimeMap !! Js.toLowerCase s = None) as ->.
  { apply not_elem_of_list_to_map_1. exact Htab. }
  destruct (existsb _ _) eqn:E; [|done].
  apply existsb_exists in E as (k & Hin & Heq).
  apply String.eqb_eq in Heq. subst k. destruct Hproto. by apply list_elem_of_In.
Qed.

Example getMimeType_PNG : getMimeType "PNG" = getMimeType "png".
Proof. apply getMimeType_toLowerCase. Qed.

Example getMimeType_png : getMimeType "png" = Js.Str "image/png".
Proof. vm_compute. reflexivity. Qed.

Example getMimeType_mp4 : getMimeType "mp4" = Js.Str "image/png".
Proof. vm_compute. reflexivity. Qed.

(** C8.  [getMimeType] is meant to answer the default image MIME type for
    every format outside the table.  The string "constructor" is its own
    lower-cased form and is not in the table, yet the fallback lookup
    [mimeMap[...]] finds the member of that name which the object literal
    inherits, a truthy value, and [getMimeType] returns it in place of
    "image/png". *)
Theorem getMimeType_constructor_not_default :
  Js.toLowerCase "constructor" = "constructor" /\
  ("constructor" ∉ value <$> IMAGE_FORMATS) /\
  getMimeType "constructor" = Js.Inherited "constructor" /\
  getMimeType "constructor" <> Js.Str "image/png".
Proof.
  split; [reflexivity|]. split.
  - apply (bool_decide_unpack _). vm_compute. reflexivity.
  - split; [vm_compute; reflexivity|]. vm_compute. discriminate.
Qed.

(** ** Updates of the tracked list *)

Section Updates.
Variable target : string.
Variable upd : ProcessedFile -> ProcessedFile.
Hypothesis upd_id : forall f, id (upd f) = id f.

Lemma map_id_length l : length (map_id target upd l) = length l.
Proof. unfold map_id. by rewrite length_fmap. Qed.

Lemma map_id_lookup_ne l i f :
  l !! i = Some f -> id f <> target -> map_id target upd l !! i = Some f.
Proof.
  intros Hl Hne. unfold map_id. rewrite list_lookup_fmap, Hl. simpl.
  destruct (String.eqb_spec (id f) target); [done|done].
Qed.

Lemma map_id_lookup_eq l i f :
  l !! i = Some f -> id f = target -> map_id target upd l !! i = Some (upd f).
Proof.
  intros Hl He. unfold map_id. rewrite list_lookup_fmap, Hl. simpl.
  destruct (String.eqb_spec (id f) target); [done|done].
Qed.

Lemma map_id_absent l : target ∉ id <$> l -> map_id target upd l = l.
Proof.
  unfold map_id. induction l as [|f l IH]; [done|].
  rewrite fmap_cons, not_elem_of_cons. intros [Hne Hl].
  rewrite fmap_cons, IH by done. destruct (String.eqb_spec (id f) target); [|done].
  by destruct Hne.
Qed.

Lemma map_id_ids l : id <$> map_id target upd l = id <$> l.
Proof.
  unfold map_id. rewrite <- list_fmap_compose. apply list_fmap_ext.
  intros _ f _. simpl. destruct (String.eqb (id f) target); [apply upd_id|done].
Qed.

Lemma elem_of_map_id l g :
  g ∈ map_id target upd l <->
  exists f, f ∈ l /\ (id f = target /\ g = upd f \/ id f <> target /\ g = f).
Proof.
  unfold map_id. rewrite list_elem_of_fmap. split.
  - intros (f & -> & Hin). exists f. split; [done|].
    destruct (String.eqb_spec (id f) target); [by left|by right].
  - intros (f & Hin & Hc). exists f. split; [|done].
    destruct (String.eqb_spec (id f) target), Hc as [[? ->]|[? ->]]; done.
Qed.

(** With distinct ids an update touches one position at most. *)
Lemma map_id_single l i j f g :
  NoDup (id <$> l) ->
  l !! i = Some f -> map_id target upd l !! i <> Some f ->
  l !! j = Some g -> map_id target upd l !! j <> Some g ->
  i = j.
Proof.
  intros Hnd Hi Hi' Hj Hj'.
  assert (id f = target) as Hf.
  { destruct (decide (id f = target)); [done|]. by erewrite map_id_lookup_ne in Hi'. }
  assert (id g = target) as Hg.
  { destruct (decide (id g = target)); [done|]. by erewrite map_id_lookup_ne in Hj'. }
  eapply NoDup_lookup; [exact Hnd| |].
  - rewrite list_lookup_fmap, Hi. simpl. by rewrite Hf.
  - rewrite list_lookup_fmap, Hj. simpl. by rewrite Hg.
Qed.

End Updates.

(** ** Running the handlers *)

Lemma with_status_id s f : id (with_status s f) = id f.
Proof. reflexivity. Qed.

Lemma with_completed_id url f : id (with_completed url f) = id f.
Proof. reflexivity. Qed.

Lemma with_outputFormat_id format f : id (with_outputFormat format f) = id f.
Proof. reflexivity. Qed.

#[local] Hint Resolve with_status_id with_completed_id with_outputFormat_id : core.

Ltac unfold_handlers :=
  unfold convertFile, convertFile_begin, convertFile_resume, try_finally, try_catch,
    convertFile_try, convertFile_catch, convertFile_finally, try_catch, bind,
    fetchFile, ffmpeg_writeFile, ffmpeg_exec, ffmpeg_readFile, ffmpeg_deleteFile,
    URL_createObjectURL, new_Uint8Array, host_call, setFiles, console_error,
    ret, throw in *.

(** One case split per answer of the host. *)
Ltac step_host :=
  match goal with
  | |- context [host_fetchFile ?a ?h] =>
      destruct (host_fetchFile a h) as [[?|?] ?] eqn:?
  | |- context [host_writeFile ?a ?b ?h] =>
      destruct (host_writeFile a b h) as [[[]|?] ?] eqn:?
  | |- context [host_exec ?a ?h] =>
      destruct (host_exec a h) as [[?|?] ?] eqn:?
  | |- context [host_readFile ?a ?h] =>
      destruct (host_readFile a h) as [[[?|?]|?] ?] eqn:?
  | |- context [host_deleteFile ?a ?h] =>
      destruct (host_deleteFile a h) as [[[]|?] ?] eqn:?
  | |- context [host_createObjectURL ?a ?h] =>
      destruct (host_createObjectURL a h) as [? ?] eqn:?
  | |- context [host_ToIndex ?a] =>
      destruct (host_ToIndex a) as [?|?] eqn:?
  | |- context [(length ?l =? 0)%nat] =>
      destruct (length l =? 0)%nat eqn:?
  | |- context [if isImage ?f then _ else _] =>
      destruct (isImage f) eqn:?
  end; cbn.

Section Run.
Context {S : Type} `{Host S}.

(** Whatever the host answers, the part of a conversion that runs after
    the click returns normally, draws no token and rewrites the list by
    one of two updates on the entries that carry the id. *)
Lemma convertFile_resume_files (fileObj : ProcessedFile) (w : World S) :
  exists upd,
    (upd = with_status error \/ exists url, upd = with_completed url) /\
    files (snd (convertFile_resume fileObj w)) = map_id (id fileObj) upd (files w) /\
    tokens (snd (convertFile_resume fileObj w)) = tokens w /\
    fst (convertFile_resume fileObj w) = Ok tt.
Proof. unfold_handlers. cbn. repeat step_host; eauto 10. Qed.

(** A conversion is its first update followed by the rest. *)
Lemma convertFile_split (fileObj : ProcessedFile) (w : World S) :
  convertFile fileObj w = convertFile_resume fileObj (snd (convertFile_begin fileObj w)).
Proof. reflexivity. Qed.

(** The two branches of [convertFile] pass [execArgs] to [exec]. *)
Lemma exec_branches (fileObj : ProcessedFile) :
  (if isImage (file fileObj) then
     let args := ["-i"; inputName fileObj] in
     let args :=
       if existsb (String.eqb (requestedFormat fileObj)) ["jpg"; "jpeg"; "webp"]
       then args ++ ["-q:v"; "2"] else args in
     let args := args ++ [outputName fileObj] in
     ffmpeg_exec args
   else
     ffmpeg_exec
       [ "-i"; inputName fileObj; "-c:v"; "libx264"; "-preset"; "ultrafast";
         "-crf"; "23"; "-c:a"; "aac"; outputName fileObj ])
  = ffmpeg_exec (S := S) (execArgs fileObj).
Proof. unfold execArgs. by destruct (isImage _). Qed.

(** When the steps succeed with a non-empty buffer the list is rewritten
    with the handle of that buffer. *)
Lemma convertFile_resume_success fileObj (w : World S) out h4 :
  steps_succeed fileObj (host w) out h4 -> out <> [] ->
  files (snd (convertFile_resume fileObj w)) =
    map_id (id fileObj) (with_completed (output_url fileObj out h4)) (files w)
  /\ console (snd (convertFile_resume fileObj w)) = console w.
Proof.
  intros (data & h1 & h2 & rc & h3 & Hf & Hw & He & Hr) Hout.
  unfold convertFile_resume, try_finally, try_catch, convertFile_try.
  rewrite exec_branches. unfold output_url. unfold_handlers. cbn.
  rewrite Hf. cbn. rewrite Hw. cbn. rewrite He. cbn. rewrite Hr. cbn.
  destruct out as [|b out]; [done|]. cbn.
  repeat step_host; done.
Qed.

(** When a step fails the list is rewritten to [error], and the failure
    is reported on the console. *)
Lemma convertFile_resume_failure fileObj (w : World S) :
  steps_fail fileObj (host w) ->
  files (snd (convertFile_resume fileObj w)) =
    map_id (id fileObj) (with_status error) (files w)
  /\ exists err, console (snd (convertFile_resume fileObj w)) =
                   console w ++ [("Conversion Error:", err)].
Proof.
  intros Hfail.
  unfold convertFile_resume, try_finally, try_catch, convertFile_try.
  rewrite exec_branches. unfold_handlers. cbn.
  destruct Hfail as
    [ e h1 Hf | data h1 e h2 Hf Hw | data h1 h2 e h3 Hf Hw He
    | e h4 (data & h1 & h2 & rc & h3 & Hf & Hw & He & Hr)
    | h4 (data & h1 & h2 & rc & h3 & Hf & Hw & He & Hr)
    | x h4 (data & h1 & h2 & rc & h3 & Hf & Hw & He & Hr) Hx
    | x e h4 (data & h1 & h2 & rc & h3 & Hf & Hw & He & Hr) Hx ];
    rewrite Hf; cbn; try (rewrite Hw; cbn); try (rewrite He; cbn);
    try (rewrite Hr; cbn); try (rewrite Hx; cbn);
    repeat step_host; eauto.
Qed.

Lemma map_id_twice target (upd1 upd2 : ProcessedFile -> ProcessedFile) l :
  (forall f, id (upd1 f) = id f) ->
  map_id target upd2 (map_id target upd1 l) = map_id target (upd2 ∘ upd1) l.
Proof.
  intros Hid. unfold map_id. rewrite <- list_fmap_compose. apply list_fmap_ext.
  intros _ f _. cbn. destruct (String.eqb_spec (id f) target) as [He|Hne].
  - rewrite Hid. by destruct (String.eqb_spec (id f) target).
  - by destruct (String.eqb_spec (id f) target).
Qed.

(** A conversion that runs from the click to its end with no other event
    in between. *)
Lemma convertFile_uninterrupted fileObj (w : World S) :
  (forall out h4,
     steps_succeed fileObj (host w) out h4 -> out <> [] ->
     files (snd (convertFile fileObj w)) =
       map_id (id fileObj) (with_completed (output_url fileObj out h4)) (files w)) /\
  (steps_fail fileObj (host w) ->
   files (snd (convertFile fileObj w)) =
     map_id (id fileObj) (with_status error) (files w)).
Proof.
  rewrite convertFile_split. split.
  - intros out h4 Hok Hout.
    destruct (convertFile_resume_success fileObj (snd (convertFile_begin fileObj w))
                out h4 Hok Hout) as [-> _].
    change (files (snd (convertFile_begin fileObj w)))
      with (map_id (id fileObj) (with_status converting) (files w)).
    rewrite map_id_twice by done. reflexivity.
  - intros Hfail.
    destruct (convertFile_resume_failure fileObj (snd (convertFile_begin fileObj w))
                Hfail) as [-> _].
    change (files (snd (convertFile_begin fileObj w)))
      with (map_id (id fileObj) (with_status converting) (files w)).
    rewrite map_id_twice by done. reflexivity.
Qed.

(** The [finally] block leaves the list and the console as they are and
    never throws; its first call is the deletion of the input. *)
Lemma convertFile_finally_frame fileObj (w : World S) :
  let r := convertFile_finally fileObj w in
  fst r = Ok tt /\ files (snd r) = files w /\ console (snd r) = console w /\
  exists rest, calls (snd r) = calls w ++ Call_deleteFile (inputName fileObj) :: rest.
Proof.
  unfold_handlers. cbn.
  repeat step_host; repeat split; try done;
    eexists; rewrite <- ?app_assoc; reflexivity.
Qed.

Lemma convertFile_resume_calls fileObj (w : World S) :
  forall args, Call_exec args ∈ calls (snd (convertFile_resume fileObj w)) ->
               Call_exec args ∈ calls w \/ args = execArgs fileObj.
Proof.
  intros args.
  unfold convertFile_resume, try_finally, try_catch, convertFile_try.
  rewrite exec_branches. unfold_handlers. cbn.
  repeat step_host; rewrite ?app_nil_r, ?elem_of_app, ?list_elem_of_singleton;
    intuition congruence.
Qed.

Lemma convertFile_resume_exec fileObj (w : World S) data h1 h2 :
  host_fetchFile (file fileObj) (host w) = (Ok data, h1) ->
  host_writeFile (inputName fileObj) data h1 = (Ok tt, h2) ->
  Call_exec (execArgs fileObj) ∈ calls (snd (convertFile_resume fileObj w)).
Proof.
  intros Hf Hw.
  unfold convertFile_resume, try_finally, try_catch, convertFile_try.
  rewrite exec_branches. unfold_handlers. cbn. rewrite Hf. cbn. rewrite Hw. cbn.
  repeat step_host; rewrite ?app_nil_r, ?elem_of_app, ?list_elem_of_singleton;
    intuition congruence.
Qed.

Lemma newFile_run (f : File) (w : World S) :
  exists t u h',
    newFile f w =
      (Ok {| file := f; id := t; status := pending; preview := u;
             outputUrl := None;
             outputFormat := Some (if isImage f then "png" else "mp4") |},
       {| host := h'; files := files w; calls := calls w; console := console w;
          tokens := tokens w ++ [t] |}).
Proof.
  unfold newFile, bind, random_token, URL_createObjectURL, host_call, ret.
  destruct (host_random_token (host w)) as [t h1]. cbn.
  destruct (host_createObjectURL (inl f) h1) as [u h2]. cbn.
  exists t, u, h2. by rewrite app_nil_r.
Qed.

Lemma mapM_newFile (acceptedFiles : list File) (w : World S) :
  exists newFiles h',
    mapM newFile acceptedFiles w =
      (Ok newFiles,
       {| host := h'; files := files w; calls := calls w; console := console w;
          tokens := tokens w ++ (id <$> newFiles) |}) /\
    Forall2 (fun f e => file e = f /\ status e = pending /\ outputUrl e = None /\
                        outputFormat e = Some (if isImage f then "png" else "mp4"))
            acceptedFiles newFiles.
Proof.
  revert w. induction acceptedFiles as [|f fs IH]; intros w.
  - exists [], (host w). cbn. rewrite app_nil_r. by destruct w.
  - cbn [mapM]. unfold bind at 1.
    destruct (newFile_run f w) as (t & u & h1 & ->).
    unfold bind at 1.
    match goal with |- context [mapM newFile fs ?w1] =>
      destruct (IH w1) as (news & h' & -> & HF) end. cbn.
    exists ({| file := f; id := t; status := pending; preview := u;
               outputUrl := None;
               outputFormat := Some (if isImage f then "png" else "mp4") |} :: news), h'.
    split.
    + rewrite fmap_cons, <- app_assoc. reflexivity.
    + constructor; [done|done].
Qed.

End Run.

(** ** The claims about single handlers *)

Section Claims.
Context {S : Type} `{Host S}.

(** C5.  [onDrop] appends exactly one new entry per accepted file, in
    the order of the files: the entry refers to its file, is [pending],
    has no output handle, and requests "png" when the declared type of
    the file starts with "image/" and "mp4" otherwise. *)
Theorem onDrop_appends_pending (acceptedFiles : list File) (w : World S) :
  exists newFiles,
    files (snd (onDrop acceptedFiles w)) = files w ++ newFiles /\
    length newFiles = length acceptedFiles /\
    forall i f, acceptedFiles !! i = Some f ->
      exists e, newFiles !! i = Some e /\ file e = f /\ status e = pending /\
                outputUrl e = None /\
                outputFormat e =
                  Some (if Js.startsWith "image/" (type f) then "png" else "mp4").
Proof.
  destruct (mapM_newFile acceptedFiles w) as (news & h' & Hrun & HF).
  exists news. unfold onDrop, bind, setFiles. rewrite Hrun. cbn.
  split; [done|]. split; [symmetry; by eapply Forall2_length|].
  intros i f Hi. destruct (Forall2_lookup_l _ _ _ _ _ HF Hi) as (e & He & Hp).
  exists e. split; [done|]. exact Hp.
Qed.

(** C7.  When write, command and read succeed and the read returns a
    buffer of zero bytes, the [try] block throws the error "FFmpeg
    produced an empty file.", the error is reported, and every entry with
    the id of [fileObj] ends [error]. *)
Theorem empty_output_ends_in_error (fileObj : ProcessedFile) (w : World S) h4 :
  steps_succeed fileObj (host w) [] h4 ->
  let w' := snd (convertFile_resume fileObj w) in
  fst (convertFile_try fileObj w) = Throw (Error "FFmpeg produced an empty file.") /\
  console w' = console w ++ [("Conversion Error:", Error "FFmpeg produced an empty file.")] /\
  forall f, f ∈ files w' -> id f = id fileObj -> status f = error.
Proof.
  intros Hok. pose proof Hok as (data & h1 & h2 & rc & h3 & Hf & Hw & He & Hr).
  cbn. split; [|split].
  - unfold convertFile_try. rewrite exec_branches. unfold_handlers. cbn.
    rewrite Hf. cbn. rewrite Hw. cbn. rewrite He. cbn. by rewrite Hr.
  - unfold convertFile_resume, try_finally, try_catch, convertFile_try.
    rewrite exec_branches. unfold_handlers. cbn.
    rewrite Hf. cbn. rewrite Hw. cbn. rewrite He. cbn. rewrite Hr. cbn.
    repeat step_host; done.
  - intros f Hin Hid.
    destruct (convertFile_resume_failure fileObj w) as [Hfiles _].
    { by eapply output_empty. }
    rewrite Hfiles in Hin. apply elem_of_map_id in Hin as (g & Hg & [[_ ->]|[Hne ->]]).
    + done.
    + by destruct Hne.
Qed.

(** The cleanup cannot change what the conversion wrote into the list. *)
Lemma cleanup_keeps_list (fileObj : ProcessedFile) (w : World S) :
  files (snd (convertFile_resume fileObj w)) =
  files (snd (try_catch (convertFile_try fileObj) (convertFile_catch fileObj) w)).
Proof.
  unfold convertFile_resume, try_finally.
  destruct (try_catch _ _ w) as [r w1].
  destruct (convertFile_finally_frame fileObj w1) as (Hr & Hfiles & _).
  destruct (convertFile_finally fileObj w1) as [[[]|e] w2]; cbn in *; congruence.
Qed.

(** The deletion of the input is attempted after every conversion. *)
Lemma cleanup_attempts_input (fileObj : ProcessedFile) (w : World S) :
  Call_deleteFile (inputName fileObj) ∈ calls (snd (convertFile_resume fileObj w)).
Proof.
  unfold convertFile_resume, try_finally.
  destruct (try_catch _ _ w) as [r w1].
  destruct (convertFile_finally_frame fileObj w1) as (_ & _ & _ & rest & Hcalls).
  destruct (convertFile_finally fileObj w1) as [[[]|e] w2]; cbn in *;
    rewrite Hcalls, elem_of_app, elem_of_cons; auto.
Qed.

(** The deletion of the output is attempted when that of the input
    succeeded, and only then. *)
Lemma cleanup_output_after_input (fileObj : ProcessedFile) (w : World S) :
  calls (snd (convertFile_finally fileObj w)) =
    calls w ++
    match fst (host_deleteFile (inputName fileObj) (host w)) with
    | Ok _ => [Call_deleteFile (inputName fileObj); Call_deleteFile (outputName fileObj)]
    | Throw _ => [Call_deleteFile (inputName fileObj)]
    end.
Proof.
  unfold_handlers. cbn. repeat step_host; by rewrite <- ?app_assoc.
Qed.

(** C6.  For an entry whose file is not image-typed the argument list of
    the command is "-i", the input name, the fixed options
    "-c:v libx264 -preset ultrafast -crf 23 -c:a aac", and the output
    name.  This holds for every requested format (the format only shows
    in the extension of the output name); a conversion issues no other
    command, and it issues this one as soon as the write succeeded. *)
Theorem video_command_is_fixed (fileObj : ProcessedFile) (w : World S) :
  isImage (file fileObj) = false ->
  let pipeline := ["-c:v"; "libx264"; "-preset"; "ultrafast";
                   "-crf"; "23"; "-c:a"; "aac"] in
  (forall format,
     execArgs (with_outputFormat format fileObj) =
       ["-i"; inputName fileObj] ++ pipeline
         ++ [outputName (with_outputFormat format fileObj)]) /\
  execArgs fileObj = ["-i"; inputName fileObj] ++ pipeline ++ [outputName fileObj] /\
  (forall args,
     Call_exec args ∈ calls (snd (convertFile_resume fileObj w)) ->
     Call_exec args ∈ calls w \/ args = execArgs fileObj) /\
  (forall data h1 h2,
     host_fetchFile (file fileObj) (host w) = (Ok data, h1) ->
     host_writeFile (inputName fileObj) data h1 = (Ok tt, h2) ->
     Call_exec (execArgs fileObj) ∈ calls (snd (convertFile_resume fileObj w))).
Proof.
  intros Hvideo. cbn. repeat split.
  - intros format. unfold execArgs. cbn. by rewrite Hvideo.
  - unfold execArgs. by rewrite Hvideo.
  - apply convertFile_resume_calls.
  - apply convertFile_resume_exec.
Qed.

(** C9.  The remove button keeps exactly the entries with another id,
    whatever the status of the removed one; and a conversion that runs on
    in a list that has no entry with its id, in particular the list right
    after the removal, leaves that list as it is, whether it succeeds or
    fails. *)
Theorem remove_discards_late_result (f : ProcessedFile) (w : World S) :
  let w1 := snd (removeFile f w) in
  files w1 = filter (fun item => id item <> id f) (files w) /\
  (forall g, g ∈ files w1 <-> g ∈ files w /\ id g <> id f) /\
  files (snd (convertFile_resume f w1)) = files w1 /\
  (forall w2 : World S,
     id f ∉ id <$> files w2 -> files (snd (convertFile_resume f w2)) = files w2).
Proof.
  assert (forall g, g ∈ filter (fun item => id item <> id f) (files w)
                    <-> g ∈ files w /\ id g <> id f) as Hfilter.
  { intros g. rewrite list_elem_of_filter. tauto. }
  assert (forall w2 : World S,
            id f ∉ id <$> files w2 -> files (snd (convertFile_resume f w2)) = files w2)
    as Hlate.
  { intros w2 Habs.
    destruct (convertFile_resume_files f w2) as (upd & Hupd & -> & _).
    by apply map_id_absent. }
  cbn. split; [done|]. split; [exact Hfilter|]. split.
  - apply Hlate. cbn. rewrite list_elem_of_fmap. intros (g & Hid & Hin).
    apply Hfilter in Hin as [_ Hne]. by destruct Hne.
  - apply Hlate.
Qed.

Lemma map_id_confined target upd l :
  (forall f, id (upd f) = id f) -> confined_to target l (map_id target upd l).
Proof.
  intros Hid. split; [by apply map_id_length|]. split; [by apply map_id_ids|].
  split.
  - intros i g. by apply map_id_lookup_ne.
  - intros Hnd i j g g'. by apply map_id_single.
Qed.

(** C10.  The three updates of [convertFile] (to [converting], to
    [completed], to [error]) and the update of [updateOutputFormat] keep
    the length of the list and every id, leave every entry with another
    id as it was, and change one position at most when ids are
    distinct. *)
Theorem updates_confined_to_target
    (fileObj : ProcessedFile) (fileId format : string) (w : World S) :
  confined_to (id fileObj) (files w) (files (snd (convertFile_begin fileObj w))) /\
  confined_to (id fileObj) (files w) (files (snd (convertFile_resume fileObj w))) /\
  confined_to fileId (files w) (files (snd (updateOutputFormat fileId format w))).
Proof.
  split; [|split].
  - by apply map_id_confined.
  - destruct (convertFile_resume_files fileObj w) as (upd & Hupd & -> & _).
    apply map_id_confined. by destruct Hupd as [->|[url ->]].
  - by apply map_id_confined.
Qed.

End Claims.

(** C3.  The cleanup is meant to attempt both deletions after every
    conversion, but the two calls share one [try] block, so a rejected
    deletion of the input skips the deletion of the output.  First run: the
    write is rejected, the input was never created and its deletion is
    rejected too; the entry ends [error] and the output is never asked to
    be deleted.  Second run: every step succeeds and only the deletion of
    the input is rejected; the entry stays [completed] and again the
    output is never asked to be deleted. *)
Theorem cleanup_skips_output_after_failed_input_delete :
  snd (convertFile (entry clip "a" pending "mp4")
         (empty_world [Fine; Fail; Fail] [entry clip "a" pending "mp4"])) =
  {| host := [];
     files := [entry clip "a" error "mp4"];
     calls := [ Call_writeFile "input_a.mov" [x03%byte];
                Call_deleteFile "input_a.mov" ];
     console := [("Conversion Error:", Rejected "writeFile")]; tokens := [] |}
  /\
  snd (convertFile (entry clip "a" pending "mp4")
         (empty_world [Fine; Fine; Fine; Fine; Fine; Fail]
            [entry clip "a" pending "mp4"])) =
  {| host := [];
     files := [with_completed "blob:0" (entry clip "a" pending "mp4")];
     calls := [ Call_writeFile "input_a.mov" [x03%byte];
                Call_exec [ "-i"; "input_a.mov"; "-c:v"; "libx264"; "-preset";
                            "ultrafast"; "-crf"; "23"; "-c:a"; "aac"; "output_a.mp4" ];
                Call_readFile "output_a.mp4";
                Call_deleteFile "input_a.mov" ];
     console := []; tokens := [] |}.
Proof. split; vm_compute; reflexivity. Qed.

(** ** The interface as a whole *)

Lemma same_id_same_entry (l : list ProcessedFile) f g :
  NoDup (id <$> l) -> f ∈ l -> g ∈ l -> id f = id g -> f = g.
Proof.
  intros Hnd Hf Hg Hid.
  apply list_elem_of_lookup in Hf as [i Hi]. apply list_elem_of_lookup in Hg as [j Hj].
  assert (i = j) as ->.
  { eapply NoDup_lookup; [exact Hnd| |].
    - by rewrite list_lookup_fmap, Hi.
    - rewrite list_lookup_fmap, Hj. cbn. by rewrite Hid. }
  congruence.
Qed.

Lemma status_of_Some l i s :
  status_of i l = Some s -> exists f, f ∈ l /\ id f = i /\ status f = s.
Proof.
  unfold status_of. destruct (List.find _ l) as [f|] eqn:E; [|done].
  intros [= <-]. apply find_some in E as [Hin Heq]. apply String.eqb_eq in Heq.
  exists f. by rewrite list_elem_of_In.
Qed.

Lemma status_of_None l i : status_of i l = None <-> i ∉ id <$> l.
Proof.
  unfold status_of. split.
  - destruct (List.find _ l) as [f|] eqn:E; [done|]. intros _.
    rewrite list_elem_of_fmap. intros (f & -> & Hin).
    apply list_elem_of_In in Hin. pose proof (find_none _ _ E f Hin) as Hf.
    cbn in Hf. by rewrite String.eqb_refl in Hf.
  - intros Habs. destruct (List.find _ l) as [f|] eqn:E; [|done].
    apply find_some in E as [Hin Heq]. apply String.eqb_eq in Heq.
    destruct Habs. apply list_elem_of_fmap. exists f. by rewrite list_elem_of_In.
Qed.

Lemma status_of_elem l f :
  NoDup (id <$> l) -> f ∈ l -> status_of (id f) l = Some (status f).
Proof.
  intros Hnd Hin. destruct (status_of (id f) l) as [s|] eqn:E.
  - apply status_of_Some in E as (g & Hg & Hid & <-).
    by rewrite (same_id_same_entry l g f).
  - apply status_of_None in E. destruct E. apply list_elem_of_fmap. by exists f.
Qed.

Lemma status_le_refl s : status_le s s = true.
Proof. by destruct s. Qed.

Lemma status_le_trans s1 s2 s3 :
  status_le s1 s2 = true -> status_le s2 s3 = true -> status_le s1 s3 = true.
Proof. by destruct s1, s2, s3. Qed.

Lemma take_out_sublist f l : take_out f l `sublist_of` l.
Proof.
  induction l as [|x l IH]; cbn; [done|].
  case_bool_decide; [by apply sublist_cons|by apply sublist_skip].
Qed.

Lemma elem_of_take_out f l t :
  NoDup (id <$> l) -> t ∈ take_out f l -> t ∈ l /\ (f ∈ l -> id t <> id f).
Proof.
  induction l as [|x l IH]; [by intros _ ?%elem_of_nil|].
  rewrite fmap_cons, NoDup_cons. intros [Hx Hnd] Hin. cbn [take_out] in Hin.
  case_bool_decide as Hxf.
  - subst x. split; [by apply elem_of_cons; right|]. intros _ Hid.
    destruct Hx. rewrite <- Hid. apply list_elem_of_fmap. by exists t.
  - apply elem_of_cons in Hin as [->|Hin].
    + split; [by apply elem_of_cons; left|]. intros Hf Hid.
      apply elem_of_cons in Hf as [->|Hf]; [done|].
      destruct Hx. rewrite Hid. apply list_elem_of_fmap. by exists f.
    + destruct (IH Hnd Hin) as [Ht Hne]. split; [by apply elem_of_cons; right|].
      intros Hf. apply elem_of_cons in Hf as [->|Hf]; [done|]. by apply Hne.
Qed.

Section System.
Context {S : Type} `{Host S}.

(** What one enabled event does to the list, the tokens and the set of
    conversions under way. *)
Lemma step_inv (a a' : AppState S) (e : Event) :
  step a e = Some a' ->
  match e with
  | Drop _ =>
      exists newFiles,
        files (world a') = files (world a) ++ newFiles /\
        tokens (world a') = tokens (world a) ++ (id <$> newFiles) /\
        running a' = running a /\
        forall f, f ∈ newFiles -> status f = pending /\ outputUrl f = None
  | Select f format =>
      f ∈ files (world a) /\ status f = pending /\ isImage (file f) = true /\
      files (world a') = map_id (id f) (with_outputFormat format) (files (world a)) /\
      tokens (world a') = tokens (world a) /\ running a' = running a
  | ClickConvert f =>
      f ∈ files (world a) /\ status f = pending /\
      files (world a') = map_id (id f) (with_status converting) (files (world a)) /\
      tokens (world a') = tokens (world a) /\ running a' = running a ++ [f]
  | Resume f =>
      f ∈ running a /\
      exists upd,
        (upd = with_status error \/ exists url, upd = with_completed url) /\
        files (world a') = map_id (id f) upd (files (world a)) /\
        tokens (world a') = tokens (world a) /\ running a' = take_out f (running a)
  | ClickRemove f =>
      f ∈ files (world a) /\
      files (world a') = filter (fun item => id item <> id f) (files (world a)) /\
      tokens (world a') = tokens (world a) /\ running a' = running a
  end.
Proof.
  unfold step. destruct (enabled a e) eqn:En; [|done]. intros [= <-].
  destruct e as [fs|f format|f|f|f]; cbn in *.
  - destruct (mapM_newFile fs (world a)) as (news & h' & Hrun & HF).
    exists news. unfold onDrop, bind, setFiles. rewrite Hrun. cbn.
    split; [done|]. split; [done|]. split; [done|]. intros f Hin.
    apply list_elem_of_lookup in Hin as [i Hi].
    destruct (Forall2_lookup_r _ _ _ _ _ HF Hi) as (x & _ & Hx). tauto.
  - repeat (apply andb_prop in En as [En ?]).
    repeat match goal with Hb : bool_decide _ = true |- _ =>
                             apply bool_decide_eq_true in Hb end.
    done.
  - apply andb_prop in En as [Hin Hst].
    apply bool_decide_eq_true in Hin, Hst. done.
  - apply bool_decide_eq_true in En. split; [done|].
    destruct (convertFile_resume_files f (world a)) as (upd & Hupd & Hfiles & Htok & _).
    by exists upd.
  - apply bool_decide_eq_true in En. done.
Qed.

Lemma step_tokens (a a' : AppState S) (e : Event) :
  step a e = Some a' -> exists more, tokens (world a') = tokens (world a) ++ more.
Proof.
  intros Hstep. apply step_inv in Hstep.
  destruct e.
  - destruct Hstep as (news & _ & -> & _). eauto.
  - destruct Hstep as (_ & _ & _ & _ & -> & _). exists []. by rewrite app_nil_r.
  - destruct Hstep as (_ & _ & _ & -> & _). exists []. by rewrite app_nil_r.
  - destruct Hstep as (_ & upd & _ & _ & -> & _). exists []. by rewrite app_nil_r.
  - destruct Hstep as (_ & _ & -> & _). exists []. by rewrite app_nil_r.
Qed.

Lemma run_tokens (es : list Event) (a a' : AppState S) :
  run a es = Some a' -> exists more, tokens (world a') = tokens (world a) ++ more.
Proof.
  revert a. induction es as [|e es IH]; intros a; cbn.
  - intros [= <-]. exists []. by rewrite app_nil_r.
  - destruct (step a e) as [a1|] eqn:Hstep; [|done]. intros Hrun.
    destruct (step_tokens _ _ _ Hstep) as [m1 H1].
    destruct (IH _ Hrun) as [m2 H2]. exists (m1 ++ m2).
    by rewrite H2, H1, app_assoc.
Qed.

Lemma initial_consistent (h : S) : consistent (initial h).
Proof.
  split; cbn; try (intros; exfalso; eapply elem_of_nil; eassumption);
    by apply NoDup_nil.
Qed.

(** Consistency is kept by every enabled event whose tokens are new. *)
Lemma step_consistent (a a' : AppState S) (e : Event) :
  consistent a -> step a e = Some a' -> NoDup (tokens (world a')) -> consistent a'.
Proof.
  intros [Hnd Hdrawn Hrdrawn Hrnd Hconv Hurl] Hstep Htok.
  apply step_inv in Hstep. destruct e as [fs|c format|c|c|c].
  - destruct Hstep as (news & Hfiles & Htokens & Hrun & Hnew).
    rewrite Htokens in Htok. apply NoDup_app in Htok as (Hold & Hfresh & Hnews).
    split; rewrite ?Hfiles, ?Htokens, ?Hrun.
    + rewrite fmap_app. apply NoDup_app. split; [done|]. split; [|done].
      intros i Hi. apply list_elem_of_fmap in Hi as (f & -> & Hf). by apply Hfresh, Hdrawn.
    + intros f [Hf|Hf]%elem_of_app; apply elem_of_app.
      * left. by apply Hdrawn.
      * right. apply list_elem_of_fmap. by exists f.
    + intros t Ht. apply elem_of_app. left. by apply Hrdrawn.
    + done.
    + intros t f Ht [Hf|Hf]%elem_of_app Hid; [by eapply Hconv|].
      exfalso. apply (Hfresh (id t)); [by apply Hrdrawn|].
      rewrite <- Hid. apply list_elem_of_fmap. by exists f.
    + intros f [Hf|Hf]%elem_of_app Hst; [by apply Hurl|]. by apply Hnew.
  - destruct Hstep as (Hc & Hpend & _ & Hfiles & Htokens & Hrun).
    split; rewrite ?Hfiles, ?Htokens, ?Hrun.
    + by rewrite map_id_ids.
    + intros f (g & Hg & [[_ ->]|[_ ->]])%elem_of_map_id; cbn; by apply Hdrawn.
    + done.
    + done.
    + intros t f Ht (g & Hg & [[_ ->]|[_ ->]])%elem_of_map_id Hid;
        cbn in *; by eapply Hconv.
    + intros f (g & Hg & [[_ ->]|[_ ->]])%elem_of_map_id Hst;
        cbn in *; by apply Hurl.
  - destruct Hstep as (Hc & Hpend & Hfiles & Htokens & Hrun).
    assert (forall t, t ∈ running a -> id t <> id c) as Hnot.
    { intros t Ht Hid. pose proof (Hconv t c Ht Hc (eq_sym Hid)). congruence. }
    split; rewrite ?Hfiles, ?Htokens, ?Hrun.
    + by rewrite map_id_ids.
    + intros f (g & Hg & [[_ ->]|[_ ->]])%elem_of_map_id; cbn; by apply Hdrawn.
    + intros t [Ht| ->%list_elem_of_singleton]%elem_of_app; [by apply Hrdrawn|by apply Hdrawn].
    + rewrite fmap_app. apply NoDup_app. split; [done|]. split; [|apply NoDup_singleton].
      intros i (t & -> & Ht)%list_elem_of_fmap Hi. cbn in Hi.
      apply list_elem_of_singleton in Hi. by eapply Hnot.
    + intros t f Ht (g & Hg & [[_ ->]|[Hne ->]])%elem_of_map_id Hid; [done|].
      apply elem_of_app in Ht as [Ht| ->%list_elem_of_singleton]; [by eapply Hconv|done].
    + intros f (g & Hg & [[Hid ->]|[_ ->]])%elem_of_map_id Hst; [|by apply Hurl].
      cbn. apply Hurl; [done|].
      rewrite (same_id_same_entry _ g c Hnd Hg Hc Hid). congruence.
  - destruct Hstep as (Hc & upd & Hupd & Hfiles & Htokens & Hrun).
    split; rewrite ?Hfiles, ?Htokens, ?Hrun.
    + rewrite map_id_ids; [done|]. by destruct Hupd as [->|[url ->]].
    + intros f (g & Hg & [[_ ->]|[_ ->]])%elem_of_map_id; [|by apply Hdrawn].
      destruct Hupd as [->|[url ->]]; cbn; by apply Hdrawn.
    + intros t Ht. apply Hrdrawn. by eapply elem_of_take_out.
    + eapply sublist_NoDup; [exact Hrnd|]. apply fmap_sublist, take_out_sublist.
    + intros t f Ht Hf Hid.
      destruct (elem_of_take_out c _ t Hrnd Ht) as [Ht' Hne]. specialize (Hne Hc).
      apply elem_of_map_id in Hf as (g & Hg & [[Hgid ->]|[_ ->]]).
      * destruct Hne. rewrite <- Hid, <- Hgid. by destruct Hupd as [->|[url ->]].
      * by eapply Hconv.
    + intros f (g & Hg & [[Hid ->]|[_ ->]])%elem_of_map_id Hst; [|by apply Hurl].
      destruct Hupd as [->|[url ->]]; [|done]. cbn. apply Hurl; [done|].
      rewrite (Hconv c g Hc Hg Hid). done.
  - destruct Hstep as (Hc & Hfiles & Htokens & Hrun).
    split; rewrite ?Hfiles, ?Htokens, ?Hrun.
    + eapply sublist_NoDup; [exact Hnd|]. apply fmap_sublist, sublist_filter.
    + intros f [_ Hf]%list_elem_of_filter. by apply Hdrawn.
    + done.
    + done.
    + intros t f Ht [_ Hf]%list_elem_of_filter Hid. by eapply Hconv.
    + intros f [_ Hf]%list_elem_of_filter Hst. by apply Hurl.
Qed.

(** One event moves the status of a tracked id forward, if at all. *)
Lemma step_status (a a' : AppState S) (e : Event) i s s' :
  consistent a -> step a e = Some a' -> NoDup (tokens (world a')) ->
  status_of i (files (world a)) = Some s ->
  status_of i (files (world a')) = Some s' ->
  status_le s s' = true.
Proof.
  intros Ha Hstep Htok Hs Hs'.
  pose proof (step_consistent _ _ _ Ha Hstep Htok) as Ha'.
  destruct Ha as [Hnd Hdrawn Hrdrawn Hrnd Hconv Hurl].
  apply status_of_Some in Hs as (f & Hf & <- & <-).
  apply status_of_Some in Hs' as (f' & Hf' & Hid & <-).
  assert (forall g, g ∈ files (world a) -> id g = id f -> g = f) as Hsame.
  { intros g Hg Hgid. by apply (same_id_same_entry (files (world a))). }
  apply step_inv in Hstep. destruct e as [fs|c format|c|c|c].
  - destruct Hstep as (news & Hfiles & Htokens & _).
    rewrite Hfiles in Hf'. apply elem_of_app in Hf' as [Hf'|Hf'].
    + rewrite (Hsame f') by done. apply status_le_refl.
    + exfalso. rewrite Htokens in Htok. apply NoDup_app in Htok as (_ & Hfresh & _).
      apply (Hfresh (id f)); [by apply Hdrawn|].
      rewrite <- Hid. apply list_elem_of_fmap. by exists f'.
  - destruct Hstep as (_ & _ & _ & Hfiles & _).
    rewrite Hfiles in Hf'.
    apply elem_of_map_id in Hf' as (g & Hg & [[_ ->]|[_ ->]]); cbn in *;
      rewrite (Hsame g) by done; apply status_le_refl.
  - destruct Hstep as (Hc & Hpend & Hfiles & _).
    rewrite Hfiles in Hf'.
    apply elem_of_map_id in Hf' as (g & Hg & [[Hgc ->]|[_ ->]]); cbn in *.
    + rewrite <- (Hsame g) by done.
      rewrite (same_id_same_entry _ g c Hnd Hg Hc Hgc), Hpend. done.
    + rewrite (Hsame g) by done. apply status_le_refl.
  - destruct Hstep as (Hc & upd & Hupd & Hfiles & _).
    rewrite Hfiles in Hf'.
    apply elem_of_map_id in Hf' as (g & Hg & [[Hgc ->]|[_ ->]]).
    + assert (id g = id f) as Hgf by (by destruct Hupd as [->|[url ->]]).
      rewrite <- (Hsame g) by done. rewrite (Hconv c g Hc Hg Hgc).
      by destruct Hupd as [->|[url ->]].
    + rewrite (Hsame g) by done. apply status_le_refl.
  - destruct Hstep as (_ & Hfiles & _).
    rewrite Hfiles in Hf'. apply list_elem_of_filter in Hf' as [_ Hf'].
    rewrite (Hsame f') by done. apply status_le_refl.
Qed.

(** An id that was drawn and is no longer tracked does not come back. *)
Lemma step_gone (a a' : AppState S) (e : Event) i :
  step a e = Some a' -> NoDup (tokens (world a')) ->
  i ∈ tokens (world a) -> i ∉ id <$> files (world a) ->
  i ∉ id <$> files (world a').
Proof.
  intros Hstep Htok Hi Habs. apply step_inv in Hstep.
  destruct e as [fs|c format|c|c|c].
  - destruct Hstep as (news & -> & Htokens & _).
    rewrite Htokens in Htok. apply NoDup_app in Htok as (_ & Hfresh & _).
    rewrite fmap_app, not_elem_of_app. split; [done|]. by apply Hfresh.
  - destruct Hstep as (_ & _ & _ & -> & _). by rewrite map_id_ids.
  - destruct Hstep as (_ & _ & -> & _). by rewrite map_id_ids.
  - destruct Hstep as (_ & upd & Hupd & -> & _).
    rewrite map_id_ids; [done|]. by destruct Hupd as [->|[url ->]].
  - destruct Hstep as (_ & -> & _).
    intros (g & -> & [_ Hg]%list_elem_of_filter)%list_elem_of_fmap.
    apply Habs, list_elem_of_fmap. by exists g.
Qed.

Lemma run_consistent (es : list Event) (a a' : AppState S) :
  consistent a -> run a es = Some a' -> NoDup (tokens (world a')) -> consistent a'.
Proof.
  revert a. induction es as [|e es IH]; intros a Ha; cbn.
  - by intros [= <-].
  - destruct (step a e) as [a1|] eqn:Hstep; [|done]. intros Hrun Htok.
    apply (IH a1); [|done|done]. eapply step_consistent; [done|done|].
    destruct (run_tokens _ _ _ Hrun) as [more Hmore].
    rewrite Hmore in Htok. by apply NoDup_app in Htok as (? & _).
Qed.

Lemma run_gone (es : list Event) (a a' : AppState S) i :
  run a es = Some a' -> NoDup (tokens (world a')) ->
  i ∈ tokens (world a) -> i ∉ id <$> files (world a) ->
  i ∉ id <$> files (world a').
Proof.
  revert a. induction es as [|e es IH]; intros a; cbn.
  - by intros [= <-].
  - destruct (step a e) as [a1|] eqn:Hstep; [|done]. intros Hrun Htok Hi Habs.
    destruct (run_tokens _ _ _ Hrun) as [more Hmore].
    assert (NoDup (tokens (world a1))) as Htok1.
    { rewrite Hmore in Htok. by apply NoDup_app in Htok as (? & _). }
    apply (IH a1); [done|done| |by eapply step_gone].
    destruct (step_tokens _ _ _ Hstep) as [m ->]. apply elem_of_app. by left.
Qed.

Lemma run_status (es : list Event) (a a' : AppState S) i s s' :
  consistent a -> run a es = Some a' -> NoDup (tokens (world a')) ->
  status_of i (files (world a)) = Some s ->
  status_of i (files (world a')) = Some s' ->
  status_le s s' = true.
Proof.
  revert a s. induction es as [|e es IH]; intros a s Ha; cbn.
  - intros [= <-] _ Hs Hs'. rewrite Hs in Hs'. injection Hs' as <-.
    apply status_le_refl.
  - destruct (step a e) as [a1|] eqn:Hstep; [|done]. intros Hrun Htok Hs Hs'.
    destruct (run_tokens _ _ _ Hrun) as [more Hmore].
    assert (NoDup (tokens (world a1))) as Htok1.
    { rewrite Hmore in Htok. by apply NoDup_app in Htok as (? & _). }
    destruct (status_of i (files (world a1))) as [s1|] eqn:Hs1.
    + eapply status_le_trans; [by eapply step_status|].
      eapply (IH a1); [by eapply step_consistent|done|done|done|done].
    + exfalso. apply status_of_None in Hs1.
      assert (status_of i (files (world a')) = None) as Hnone.
      { apply status_of_None. eapply run_gone; [done|done| |done].
        destruct (step_tokens _ _ _ Hstep) as [m ->]. apply elem_of_app. left.
        apply status_of_Some in Hs as (f & Hf & <- & _). by apply (ids_drawn a). }
      congruence.
Qed.

End System.

Section Interface.
Context {S : Type} `{Host S}.

(** In a state reached from the empty list an entry without the status
    [completed] has no output handle, and a conversion under way finds
    none on the entries with its id. *)
Lemma reachable_consistent (h : S) (es : list Event) (a : AppState S) :
  run (initial h) es = Some a -> NoDup (tokens (world a)) -> consistent a.
Proof. apply run_consistent, initial_consistent. Qed.

Lemma running_has_no_handle (a : AppState S) t f :
  consistent a -> t ∈ running a -> f ∈ files (world a) -> id f = id t ->
  outputUrl f = None.
Proof.
  intros Ha Ht Hf Hid. apply (handle_only_completed a Ha f Hf).
  by rewrite (running_converting a Ha t f Ht Hf Hid).
Qed.

(** A conversion started through the interface that fails leaves its
    entry [error] and without output handle. *)
Lemma started_conversion_failure (h : S) (es : list Event) (a : AppState S) t :
  run (initial h) es = Some a -> NoDup (tokens (world a)) ->
  t ∈ running a -> steps_fail t (host (world a)) ->
  forall f, f ∈ files (snd (convertFile_resume t (world a))) -> id f = id t ->
            status f = error /\ outputUrl f = None.
Proof.
  intros Hrun Htok Ht Hfail f Hf Hid.
  pose proof (reachable_consistent _ _ _ Hrun Htok) as Ha.
  destruct (convertFile_resume_failure t (world a) Hfail) as [Hfiles _].
  rewrite Hfiles in Hf. apply elem_of_map_id in Hf as (g & Hg & [[Hgid ->]|[Hne ->]]).
  - split; [done|]. cbn. by eapply running_has_no_handle.
  - by destruct Hne.
Qed.

(** C1.  Whatever the list is when the conversion of [fileObj] runs on
    after its click, the entries keep their ids, and: if write, command
    and read succeed and the read returns a non-empty buffer, every entry
    with the id of [fileObj] ends [completed] with the handle of that
    buffer attached; if a step fails, every such entry ends [error] and
    the conversion attaches nothing: the entry is the one that was there
    with its status replaced, so it has the output handle it had.  For a
    conversion started through the interface in a run whose random tokens
    never repeat that is no handle. *)
Theorem convertFile_final_status (fileObj : ProcessedFile) (w : World S) :
  let w' := snd (convertFile_resume fileObj w) in
  id <$> files w' = id <$> files w /\
  (forall out h4,
     steps_succeed fileObj (host w) out h4 -> out <> [] ->
     forall f, f ∈ files w' -> id f = id fileObj ->
       status f = completed /\ outputUrl f = Some (output_url fileObj out h4)) /\
  (steps_fail fileObj (host w) ->
   forall f, f ∈ files w' -> id f = id fileObj ->
     status f = error /\
     exists g, g ∈ files w /\ id g = id fileObj /\ f = with_status error g /\
               outputUrl f = outputUrl g) /\
  (forall (h : S) (es : list Event) (a : AppState S),
     run (initial h) es = Some a -> NoDup (tokens (world a)) ->
     w = world a -> fileObj ∈ running a ->
     steps_fail fileObj (host w) ->
     forall f, f ∈ files w' -> id f = id fileObj ->
       status f = error /\ outputUrl f = None).
Proof.
  cbn. split; [|split; [|split]].
  - destruct (convertFile_resume_files fileObj w) as (upd & Hupd & -> & _).
    apply map_id_ids. by destruct Hupd as [->|[url ->]].
  - intros out h4 Hok Hout f Hin Hid.
    destruct (convertFile_resume_success fileObj w out h4 Hok Hout) as [Hfiles _].
    rewrite Hfiles in Hin. apply elem_of_map_id in Hin as (g & Hg & [[_ ->]|[Hne ->]]).
    + done.
    + by destruct Hne.
  - intros Hfail f Hin Hid.
    destruct (convertFile_resume_failure fileObj w Hfail) as [Hfiles _].
    rewrite Hfiles in Hin. apply elem_of_map_id in Hin as (g & Hg & [[Hgid ->]|[Hne ->]]).
    + split; [done|]. by exists g.
    + by destruct Hne.
  - intros h es a Hrun Htok -> Ht Hfail f Hin Hid.
    by apply (started_conversion_failure h es a fileObj).
Qed.

(** C4.  Take any run of interface events from the empty list in which
    the random tokens never repeat, and any two states [a], [a'] of it,
    [a] before [a'].  An id tracked in both has in [a'] the status it had
    in [a] or a later one along
    [pending -> converting -> {completed, error}]: it never goes back,
    and [completed] and [error] are never left. *)
Theorem status_is_monotone (h : S) (es1 es2 : list Event) (a a' : AppState S)
    (i : string) (s s' : Status) :
  run (initial h) es1 = Some a ->
  run a es2 = Some a' ->
  NoDup (tokens (world a')) ->
  status_of i (files (world a)) = Some s ->
  status_of i (files (world a')) = Some s' ->
  status_le s s' = true.
Proof.
  intros Hrun1 Hrun2 Htok Hs Hs'.
  eapply run_status; [|exact Hrun2|exact Htok|exact Hs|exact Hs'].
  eapply reachable_consistent; [exact Hrun1|].
  destruct (run_tokens _ _ _ Hrun2) as [more Hmore].
  rewrite Hmore in Htok. by apply NoDup_app in Htok as (? & _).
Qed.

(** C2.  [updateOutputFormat] looks at the id only: it sets the requested
    format of every entry with that id, whatever its status, leaves the
    other entries as they are, and leaves the whole list as it is when no
    entry has the id.  The restriction to [pending] is the interface's: the
    selector is rendered only for a tracked, image-typed, [pending] entry,
    so that, ids being distinct, a change of the selector leaves every
    entry that is not [pending] as it was. *)
Theorem updateOutputFormat_by_id (fileId format : string) (w : World S) :
  let l' := files (snd (updateOutputFormat fileId format w)) in
  (forall i f, files w !! i = Some f -> id f = fileId ->
               l' !! i = Some (with_outputFormat format f)) /\
  (forall i f, files w !! i = Some f -> id f <> fileId -> l' !! i = Some f) /\
  (fileId ∉ id <$> files w -> l' = files w) /\
  (forall (a : AppState S) f,
     enabled a (Select f format) = true ->
     f ∈ files (world a) /\ isImage (file f) = true /\ status f = pending) /\
  (forall (a a' : AppState S) f,
     NoDup (id <$> files (world a)) ->
     step a (Select f format) = Some a' ->
     forall g, g ∈ files (world a) -> status g <> pending -> g ∈ files (world a')).
Proof.
  cbn. split; [|split; [|split; [|split]]].
  - intros i f Hi Hid. by apply map_id_lookup_eq.
  - intros i f Hi Hid. by apply map_id_lookup_ne.
  - intros Habs. by apply map_id_absent.
  - intros a f En. cbn in En. repeat (apply andb_prop in En as [En ?]).
    repeat match goal with Hb : bool_decide _ = true |- _ =>
                             apply bool_decide_eq_true in Hb end.
    done.
  - intros a a' f Hnd Hstep g Hg Hst.
    apply step_inv in Hstep as (Hf & Hpend & _ & -> & _).
    apply elem_of_map_id. exists g. split; [done|]. right. split; [|done].
    intros Hid. rewrite (same_id_same_entry _ g f Hnd Hg Hf Hid) in Hst. done.
Qed.

End Interface.

(** C2, on a list whose one entry is [converting]: the call with that
    entry's id is not a no-op, the requested format changes. *)
Lemma updateOutputFormat_changes_converting_entry :
  status (entry photo "a" converting "png") = converting /\
  files (snd (updateOutputFormat "a" "jpg"
                (empty_world [] [entry photo "a" converting "png"])))
    = [entry photo "a" converting "jpg"] /\
  files (snd (updateOutputFormat "a" "jpg"
                (empty_world [] [entry photo "a" converting "png"])))
    <> files (empty_world [] [entry photo "a" converting "png"]).
Proof. split; [reflexivity|]. split; [reflexivity|]. vm_compute. discriminate. Qed.

(** C4, when a token is drawn again.  In the run [redraw_events] the
    ids of the tracked entries are distinct in every state, the second
    entry with the id "a" is [completed] by the conversion of the first,
    and when its own conversion then fails it goes from [completed] to
    [error]: a terminal status is left. *)
Lemma status_leaves_completed_when_id_redrawn :
  distinct_along (initial redraw_script) (redraw_events ++ [Resume redrawn_clip]) = true /\
  run (initial redraw_script) redraw_events = Some redraw_state /\
  run redraw_state [Resume redrawn_clip] = Some redraw_final /\
  status_of "a" (files (world redraw_state)) = Some completed /\
  status_of "a" (files (world redraw_final)) = Some error /\
  status_le completed error = false.
Proof. repeat split; vm_compute; reflexivity. Qed.

(** C1, when a token is drawn again.  In the state after
    [redraw_events] the conversion of the second entry is under way, its
    first step fails, and the entry ends [error] with the output handle
    that the conversion of the first entry had attached to it. *)
Lemma failed_conversion_keeps_earlier_handle :
  distinct_along (initial redraw_script) redraw_events = true /\
  run (initial redraw_script) redraw_events = Some redraw_state /\
  redrawn_clip ∈ running redraw_state /\
  steps_fail redrawn_clip (host (world redraw_state)) /\
  files (snd (convertFile_resume redrawn_clip (world redraw_state)))
    = [ {| file := clip; id := "a"; status := error; preview := "blob:2";
           outputUrl := Some "blob:OUT-OF-A"; outputFormat := Some "mp4" |} ].
Proof.
  split; [vm_compute; reflexivity|]. split; [vm_compute; reflexivity|]. split.
  - apply list_elem_of_singleton. reflexivity.
  - split; [eapply fetch_fails; reflexivity|]. vm_compute. reflexivity.
Qed.

(** ** The theorems at concrete inputs *)

Lemma convertFile_final_status_witness :
  (steps_succeed (entry photo "a" converting "png") [] [x2a%byte] [] /\
   forall f,
     f ∈ files (snd (convertFile_resume (entry photo "a" converting "png")
                       (empty_world [] [entry photo "a" converting "png"]))) ->
     id f = "a" -> status f = completed /\ outputUrl f = Some "blob:0") /\
  (steps_fail (entry photo "a" converting "png") [Fine; Fail] /\
   forall f,
     f ∈ files (snd (convertFile_resume (entry photo "a" converting "png")
                       (empty_world [Fine; Fail] [entry photo "a" converting "png"]))) ->
     id f = "a" ->
     status f = error /\
     exists g, g ∈ [entry photo "a" converting "png"] /\ id g = "a" /\
               f = with_status error g /\ outputUrl f = outputUrl g) /\
  (run (initial [Chars "a"; Chars "blob:1"; Fail])
       [Drop [photo]; ClickConvert (dropped_photo pending)]
     = Some {| world := {| host := [Fail]; files := [dropped_photo converting];
                           calls := []; console := []; tokens := ["a"] |};
               running := [dropped_photo pending] |} /\
   forall f,
     f ∈ files (snd (convertFile_resume (dropped_photo pending)
                       {| host := [Fail]; files := [dropped_photo converting];
                          calls := []; console := []; tokens := ["a"] |})) ->
     id f = "a" -> status f = error /\ outputUrl f = None).
Proof.
  split; [|split].
  - assert (steps_succeed (entry photo "a" converting "png") [] [x2a%byte] []) as Hok.
    { do 5 eexists. repeat split; reflexivity. }
    split; [exact Hok|]. intros f Hin Hid.
    destruct (convertFile_final_status (entry photo "a" converting "png")
                (empty_world [] [entry photo "a" converting "png"])) as (_ & Hs & _).
    apply (Hs [x2a%byte] [] Hok); [discriminate|exact Hin|exact Hid].
  - assert (steps_fail (entry photo "a" converting "png") [Fine; Fail]) as Hfail.
    { eapply write_fails; reflexivity. }
    split; [exact Hfail|]. intros f Hin Hid.
    destruct (convertFile_final_status (entry photo "a" converting "png")
                (empty_world [Fine; Fail] [entry photo "a" converting "png"]))
      as (_ & _ & Hf & _).
    apply Hf; [exact Hfail|exact Hin|exact Hid].
  - assert (run (initial [Chars "a"; Chars "blob:1"; Fail])
              [Drop [photo]; ClickConvert (dropped_photo pending)]
            = Some {| world := {| host := [Fail]; files := [dropped_photo converting];
                                  calls := []; console := []; tokens := ["a"] |};
                      running := [dropped_photo pending] |}) as Hrun.
    { vm_compute. reflexivity. }
    split; [exact Hrun|]. intros f Hin Hid.
    destruct (convertFile_final_status (dropped_photo pending)
                {| host := [Fail]; files := [dropped_photo converting];
                   calls := []; console := []; tokens := ["a"] |})
      as (_ & _ & _ & Hui).
    apply (Hui _ _ _ Hrun); [apply NoDup_singleton|reflexivity| | |exact Hin|exact Hid].
    + apply list_elem_of_singleton. reflexivity.
    + eapply fetch_fails. reflexivity.
Defined.

Lemma updateOutputFormat_by_id_witness :
  enabled (demo_app [] [entry photo "a" pending "png"])
          (Select (entry photo "a" pending "png") "jpg") = true /\
  status (entry photo "a" pending "png") = pending /\
  ("b" ∉ id <$> files (empty_world [] [entry photo "a" converting "png"])) /\
  files (snd (updateOutputFormat "b" "jpg"
                (empty_world [] [entry photo "a" converting "png"])))
    = [entry photo "a" converting "png"].
Proof.
  assert (enabled (demo_app [] [entry photo "a" pending "png"])
            (Select (entry photo "a" pending "png") "jpg") = true) as En.
  { vm_compute. reflexivity. }
  assert ("b" ∉ id <$> files (empty_world [] [entry photo "a" converting "png"])) as Habs.
  { apply (bool_decide_unpack _). vm_compute. reflexivity. }
  destruct (updateOutputFormat_by_id "b" "jpg"
              (empty_world [] [entry photo "a" converting "png"]))
    as (_ & _ & Hnone & _).
  destruct (updateOutputFormat_by_id "a" "jpg"
              (empty_world [] [entry photo "a" pending "png"]))
    as (_ & _ & _ & Hgate & _).
  split; [exact En|]. split; [exact (proj2 (proj2 (Hgate _ _ En)))|].
  split; [exact Habs|]. exact (Hnone Habs).
Defined.

Lemma status_is_monotone_witness :
  run (initial [Chars "a"; Chars "blob:1"]) [Drop [photo]]
    = Some {| world := {| host := []; files := [dropped_photo pending]; calls := [];
                          console := []; tokens := ["a"] |};
              running := [] |} /\
  NoDup ["a"] /\
  status_le pending completed = true.
Proof.
  assert (run (initial [Chars "a"; Chars "blob:1"]) [Drop [photo]]
          = Some {| world := {| host := []; files := [dropped_photo pending]; calls := [];
                                console := []; tokens := ["a"] |};
                    running := [] |}) as Hrun1.
  { vm_compute. reflexivity. }
  assert (NoDup ["a"]) as Hnd by apply NoDup_singleton.
  split; [exact Hrun1|]. split; [exact Hnd|].
  eapply (status_is_monotone [Chars "a"; Chars "blob:1"] [Drop [photo]]
            [ClickConvert (dropped_photo pending); Resume (dropped_photo pending)]
            _ _ "a" pending completed).
  - exact Hrun1.
  - vm_compute. reflexivity.
  - exact Hnd.
  - reflexivity.
  - reflexivity.
Defined.

Lemma onDrop_appends_pending_witness :
  exists newFiles e1 e2,
    files (snd (onDrop [photo; clip] (empty_world [] []))) = [] ++ newFiles /\
    newFiles !! 0 = Some e1 /\ status e1 = pending /\ outputFormat e1 = Some "png" /\
    newFiles !! 1 = Some e2 /\ status e2 = pending /\ outputFormat e2 = Some "mp4".
Proof.
  destruct (onDrop_appends_pending [photo; clip] (empty_world [] []))
    as (newFiles & Hfiles & _ & Hall).
  destruct (Hall 0 photo eq_refl) as (e1 & H1 & _ & Hs1 & _ & Hf1).
  destruct (Hall 1 clip eq_refl) as (e2 & H2 & _ & Hs2 & _ & Hf2).
  exists newFiles, e1, e2. repeat split; assumption.
Defined.

Lemma video_command_is_fixed_witness :
  isImage clip = false /\
  execArgs (entry clip "a" converting "webm") =
    [ "-i"; "input_a.mov"; "-c:v"; "libx264"; "-preset"; "ultrafast";
      "-crf"; "23"; "-c:a"; "aac"; "output_a.webm" ].
Proof.
  split; [reflexivity|].
  destruct (video_command_is_fixed (entry clip "a" converting "mp4")
              (empty_world [] []) eq_refl) as (Hany & _).
  exact (Hany "webm").
Defined.

Lemma empty_output_ends_in_error_witness :
  steps_succeed (entry clip "a" converting "mp4") [Fine; Fine; Fine; Bytes []] [] [] /\
  console (snd (convertFile_resume (entry clip "a" converting "mp4")
                  (empty_world [Fine; Fine; Fine; Bytes []]
                     [entry clip "a" converting "mp4"])))
    = [("Conversion Error:", Error "FFmpeg produced an empty file.")].
Proof.
  assert (steps_succeed (entry clip "a" converting "mp4")
            [Fine; Fine; Fine; Bytes []] [] []) as Hok.
  { do 5 eexists. repeat split; reflexivity. }
  split; [exact Hok|].
  destruct (empty_output_ends_in_error (entry clip "a" converting "mp4")
              (empty_world [Fine; Fine; Fine; Bytes []]
                 [entry clip "a" converting "mp4"]) [] Hok) as (_ & Hconsole & _).
  exact Hconsole.
Defined.

Lemma remove_discards_late_result_witness :
  files (snd (convertFile_resume (entry photo "a" converting "png")
                (snd (removeFile (entry photo "a" converting "png")
                        (empty_world [] [entry photo "a" converting "png";
                                         entry clip "b" pending "mp4"])))))
  = [entry clip "b" pending "mp4"].
Proof.
  destruct (remove_discards_late_result (entry photo "a" converting "png")
              (empty_world [] [entry photo "a" converting "png";
                               entry clip "b" pending "mp4"]))
    as (_ & _ & Hlate & _).
  rewrite Hlate. reflexivity.
Defined.

Lemma updates_confined_to_target_witness :
  confined_to "a"
    [entry photo "a" pending "png"; entry clip "b" pending "mp4"]
    (files (snd (convertFile_begin (entry photo "a" pending "png")
                   (empty_world [] [entry photo "a" pending "png";
                                    entry clip "b" pending "mp4"])))).
Proof.
  exact (proj1 (updates_confined_to_target (entry photo "a" pending "png") "a" "jpg"
                  (empty_world [] [entry photo "a" pending "png";
                                   entry clip "b" pending "mp4"]))).
Defined.

(** * Further properties of the code *)

(** ** File names *)

Lemma split_not_nil c s : Js.split c s <> [].
Proof.
  destruct s as [|a s]; cbn; [done|].
  destruct (Ascii.eqb a c); [done|]. by destruct (Js.split c s).
Qed.

Lemma join_cons sep x xs :
  xs <> [] -> Js.join sep (x :: xs) = x +:+ sep +:+ Js.join sep xs.
Proof. by destruct xs. Qed.

Lemma string_app_cons x (a b : string) : String x a +:+ b = String x (a +:+ b).
Proof. reflexivity. Qed.

Lemma string_app_nil_l (b : string) : "" +:+ b = b.
Proof. reflexivity. Qed.

Lemma string_app_assoc (a b c : string) : (a +:+ b) +:+ c = a +:+ (b +:+ c).
Proof.
  induction a as [|x a IH]; [done|]. by rewrite !string_app_cons, IH.
Qed.

Lemma join_snoc sep xs x :
  xs <> [] -> Js.join sep (xs ++ [x]) = Js.join sep xs +:+ sep +:+ x.
Proof.
  induction xs as [|y ys IH]; [done|]. intros _.
  destruct ys as [|z zs]; [done|].
  change ((y :: z :: zs) ++ [x]) with (y :: ((z :: zs) ++ [x])).
  rewrite join_cons by (by destruct zs). rewrite IH by done.
  rewrite (join_cons sep y (z :: zs)) by done.
  by rewrite !string_app_assoc.
Qed.

(** Splitting at a character and joining with it gives the string back. *)
Lemma join_split c s : Js.join (String c "") (Js.split c s) = s.
Proof.
  induction s as [|a s IH]; [done|]. cbn [Js.split].
  destruct (Ascii.eqb_spec a c) as [->|Hne].
  - rewrite join_cons by apply split_not_nil. by rewrite IH.
  - destruct (Js.split c s) as [|h t] eqn:E; [by destruct (split_not_nil c s)|].
    destruct t as [|h' t'].
    + cbn in *. by rewrite IH.
    + rewrite join_cons by done. rewrite join_cons in IH by done.
      by rewrite string_app_cons, IH.
Qed.

Lemma split_pieces c s x : x ∈ Js.split c s -> Js.includes c x = false.
Proof.
  revert x. induction s as [|a s IH]; intros x; cbn [Js.split].
  - by intros ->%list_elem_of_singleton.
  - destruct (Ascii.eqb_spec a c) as [->|Hne].
    + intros [->|Hx]%elem_of_cons; [done|by apply IH].
    + destruct (Js.split c s) as [|h t] eqn:E; [by destruct (split_not_nil c s)|].
      intros [->|Hx]%elem_of_cons.
      * cbn. rewrite (IH h) by (by apply elem_of_cons; left).
        by destruct (Ascii.eqb_spec a c).
      * apply IH. by apply elem_of_cons; right.
Qed.

Lemma split_without c s : Js.includes c s = false -> Js.split c s = [s].
Proof.
  induction s as [|a s IH]; [done|]. cbn.
  destruct (Ascii.eqb a c); [done|]. cbn. intros Hs. by rewrite IH.
Qed.

Lemma split_with c s : Js.includes c s = true -> exists x y xs, Js.split c s = x :: y :: xs.
Proof.
  induction s as [|a s IH]; [done|]. cbn.
  destruct (Ascii.eqb a c); cbn.
  - intros _. destruct (Js.split c s) as [|h t] eqn:E; [by destruct (split_not_nil c s)|].
    eauto.
  - intros Hs. destruct (IH Hs) as (x & y & xs & ->). eauto.
Qed.

Lemma split_init_last c s :
  Js.split c s = Js.slice_init (Js.split c s) ++ [Js.pop (Js.split c s)].
Proof. apply app_removelast_last, split_not_nil. Qed.

Lemma safeExt_no_dot f : Js.includes "." (safeExt f) = false.
Proof.
  unfold safeExt. destruct (Js.includes "." (name (file f))) eqn:E; [|done].
  apply (split_pieces "." (name (file f))). unfold Js.pop.
  rewrite list_elem_of_In.
  destruct (exists_last (split_not_nil "." (name (file f)))) as (l & x & ->).
  rewrite last_last. apply in_or_app. right. by left.
Qed.

(** X1.  When the name of the file has a dot, the base name shown in the
    download link and the extension used in the workspace are the two
    sides of its last dot: joined by a dot they give the name back. *)
Theorem name_recomposes (f : ProcessedFile) :
  Js.includes "." (name (file f)) = true ->
  baseName f +:+ "." +:+ safeExt f = name (file f).
Proof.
  intros Hdot. unfold baseName, safeExt. rewrite Hdot.
  destruct (split_with "." _ Hdot) as (x & y & xs & E).
  rewrite <- (join_split "." (name (file f))) at 3.
  rewrite (split_init_last "." (name (file f))) at 3.
  rewrite join_snoc; [done|].
  rewrite E. unfold Js.slice_init. cbn. by destruct xs.
Qed.

Lemma name_recomposes_witness :
  Js.includes "." (name photo) = true /\
  baseName (entry photo "a" pending "png") +:+ "." +:+ safeExt (entry photo "a" pending "png")
    = "photo.heic".
Proof.
  split; [reflexivity|].
  exact (name_recomposes (entry photo "a" pending "png") eq_refl).
Defined.

(** X2.  When the name of the file has no dot, the workspace extension is
    the placeholder "bin", the base name is empty, and the download link
    suggests "converted_." followed by the format: the name of the file
    does not show in it. *)
Theorem name_without_dot (f : ProcessedFile) :
  Js.includes "." (name (file f)) = false ->
  safeExt f = "bin" /\ baseName f = "" /\
  downloadName f = "converted_." +:+ currentFormat f.
Proof.
  intros Hdot. unfold downloadName, baseName, safeExt. rewrite Hdot.
  by rewrite (split_without _ _ Hdot).
Qed.

Lemma name_without_dot_witness :
  Js.includes "." "README" = false /\
  downloadName (entry {| name := "README"; type := "image/png"; bytes := [] |}
                  "a" completed "jpg") = "converted_.jpg".
Proof.
  split; [reflexivity|].
  exact (proj2 (proj2 (name_without_dot
           (entry {| name := "README"; type := "image/png"; bytes := [] |}
              "a" completed "jpg") eq_refl))).
Defined.

Lemma includes_app c (a b : string) :
  Js.includes c (a +:+ b) = Js.includes c a || Js.includes c b.
Proof.
  induction a as [|x a IH]; [done|].
  rewrite string_app_cons. cbn. rewrite IH. by rewrite orb_assoc.
Qed.

(** A string is cut in one way only at its last occurrence of a
    character. *)
Lemma app_sep_inj c (a b x y : string) :
  Js.includes c x = false -> Js.includes c y = false ->
  a +:+ String c x = b +:+ String c y -> a = b /\ x = y.
Proof.
  intros Hx Hy. revert b. induction a as [|u a IH]; intros [|v b].
  - rewrite !string_app_nil_l. by intros [= ->].
  - rewrite string_app_nil_l, string_app_cons. intros [= <- ->].
    rewrite includes_app in Hx. cbn in Hx. rewrite Ascii.eqb_refl in Hx.
    by rewrite orb_true_r in Hx.
  - rewrite string_app_nil_l, string_app_cons. intros [= -> <-].
    rewrite includes_app in Hy. cbn in Hy. rewrite Ascii.eqb_refl in Hy.
    by rewrite orb_true_r in Hy.
  - rewrite !string_app_cons. intros [= -> E]. by destruct (IH _ E) as [-> ->].
Qed.

(** X3.  The workspace names keep conversions apart: two entries with the
    same input name have the same id (and extension), whatever characters
    the ids are made of, and an input name is never an output name. *)
Theorem workspace_names_apart (f g : ProcessedFile) :
  (inputName f = inputName g -> id f = id g /\ safeExt f = safeExt g) /\
  inputName f <> outputName g.
Proof.
  split.
  - unfold inputName. intros E. apply (inj (String.append "input_")) in E.
    apply (app_sep_inj "." (id f) (id g)); [apply safeExt_no_dot..|].
    exact E.
  - unfold inputName, outputName. rewrite !string_app_cons. intros [=].
Qed.

Lemma workspace_names_apart_witness :
  inputName (entry photo "a" pending "png") = inputName (entry photo "a" error "jpg") /\
  id (entry photo "a" pending "png") = id (entry photo "a" error "jpg").
Proof.
  split; [reflexivity|].
  exact (proj1 (proj1 (workspace_names_apart (entry photo "a" pending "png")
                         (entry photo "a" error "jpg")) eq_refl)).
Defined.

(** ** MIME resolution on the table *)

(** X4.  For every entry of the format table and every spelling of its
    value in upper or lower case, [getMimeType] answers the MIME type of
    that entry. *)
Theorem getMimeType_table (fmt : Format) (s : string) :
  fmt ∈ IMAGE_FORMATS -> Js.toLowerCase s = value fmt ->
  getMimeType s = Js.Str (mime fmt).
Proof.
  intros Hin Hs. unfold getMimeType. rewrite Hs. clear Hs.
  unfold IMAGE_FORMATS in Hin.
  repeat (apply elem_of_cons in Hin as [->|Hin]; [reflexivity|]).
  by apply elem_of_nil in Hin.
Qed.

Lemma getMimeType_table_witness :
  {| value := "webp"; label := "WebP"; mime := "image/webp" |} ∈ IMAGE_FORMATS /\
  Js.toLowerCase "WebP" = "webp" /\
  getMimeType "WebP" = Js.Str "image/webp".
Proof.
  assert ({| value := "webp"; label := "WebP"; mime := "image/webp" |} ∈ IMAGE_FORMATS)
    as Hin.
  { apply list_elem_of_In. cbn. tauto. }
  split; [exact Hin|]. split; [reflexivity|].
  exact (getMimeType_table _ "WebP" Hin eq_refl).
Defined.

Lemma mimeMap_keys_in_table k v : mimeMap !! k = Some v -> k ∈ value <$> IMAGE_FORMATS.
Proof.
  intros Hk. destruct (decide (k ∈ value <$> IMAGE_FORMATS)) as [|Hn]; [done|].
  exfalso. assert (mimeMap !! k = None) as Hnone.
  { apply not_elem_of_list_to_map_1. exact Hn. }
  congruence.
Qed.

(** X5.  Whatever the string, [getMimeType] answers the MIME type of an
    entry of the format table or, when the lower-cased string names a
    member inherited by the fallback object, that member.  The fallback
    object itself never supplies the answer: its own keys are all found in
    the table first. *)
Theorem getMimeType_range (s : string) :
  (exists fmt, fmt ∈ IMAGE_FORMATS /\ getMimeType s = Js.Str (mime fmt)) \/
  (Js.toLowerCase s ∈ Js.Object_prototype /\
   getMimeType s = Js.Inherited (Js.toLowerCase s)).
Proof.
  unfold getMimeType.
  destruct (List.find _ IMAGE_FORMATS) as [fmt|] eqn:E.
  - left. exists fmt. split; [|done]. apply find_some in E as [Hin _].
    by apply list_elem_of_In.
  - assert (mimeMap !! Js.toLowerCase s = None) as Hnone.
    { destruct (mimeMap !! Js.toLowerCase s) as [v|] eqn:Hk; [|done].
      apply mimeMap_keys_in_table in Hk.
      apply list_elem_of_fmap in Hk as (fmt & Hv & Hin).
      apply list_elem_of_In in Hin. pose proof (find_none _ _ E fmt Hin) as Hf.
      cbn in Hf. rewrite <- Hv, String.eqb_refl in Hf. done. }
    unfold Js.get. rewrite Hnone.
    destruct (existsb _ _) eqn:Hp.
    + right. split; [|done]. apply existsb_exists in Hp as (k & Hin & Heq).
      apply String.eqb_eq in Heq. subst k. by apply list_elem_of_In.
    + left. exists {| value := "png"; label := "PNG"; mime := "image/png" |}.
      split; [|done]. apply list_elem_of_In. cbn. tauto.
Qed.

(** ** Rows *)

(** X6.  A row shows exactly one of the four status elements while its
    entry is [pending], [converting] or [completed], and none of them when
    the entry is [error]: a failed entry is left with its name and the
    remove button, which every row has. *)
Theorem row_status_elements (f : ProcessedFile) :
  status_elements (renderRow f) = (if bool_decide (status f = error) then 0 else 1) /\
  row_remove (renderRow f) = true.
Proof.
  split; [|done]. unfold status_elements, renderRow. cbn.
  destruct (status f), (outputUrl f) as [[|c u]|]; reflexivity.
Qed.

(** ** The options of the selector *)

Lemma findIndex_Some {A} (p : A -> bool) (l : list A) i :
  findIndex p l = Some i ->
  exists x, l !! i = Some x /\ p x = true /\
            forall j y, j < i -> l !! j = Some y -> p y = false.
Proof.
  revert i. induction l as [|a l IH]; intros i; cbn; [done|].
  destruct (p a) eqn:Hp.
  - intros [= <-]. exists a. split; [done|]. split; [done|]. intros j y Hj. lia.
  - destruct (findIndex p l) as [k|] eqn:E; [|done]. cbn. intros [= <-].
    destruct (IH k eq_refl) as (x & Hx & Hpx & Hfirst). exists x.
    split; [done|]. split; [done|]. intros [|j] y Hj; cbn.
    + by intros [= <-].
    + apply Hfirst. lia.
Qed.

Lemma findIndex_first {A} (p : A -> bool) (l : list A) i x :
  l !! i = Some x -> p x = true -> exists j, findIndex p l = Some j /\ j <= i.
Proof.
  revert i. induction l as [|a l IH]; intros i; [done|]. cbn.
  destruct (p a) eqn:Hp; [intros _ _; exists 0; split; [done|lia]|].
  destruct i as [|i]; cbn.
  - intros [= ->]. congruence.
  - intros Hx Hpx. destruct (IH i Hx Hpx) as (j & -> & Hj). exists (S j).
    split; [done|lia].
Qed.

Lemma elem_of_uniqueByLabel (self : list Format) x :
  x ∈ uniqueByLabel self <->
  exists i, self !! i = Some x /\
            findIndex (fun f => String.eqb (label f) (label x)) self = Some i.
Proof.
  unfold uniqueByLabel. rewrite list_elem_of_fmap. split.
  - intros ([i y] & -> & Hin). apply list_elem_of_In, filter_In in Hin as [Hin Hp].
    apply list_elem_of_In, elem_of_lookup_imap in Hin as (j & z & [= -> ->] & Hz).
    apply bool_decide_eq_true in Hp. by exists j.
  - intros (i & Hx & Hfirst). exists (i, x). split; [done|].
    apply list_elem_of_In, filter_In. split.
    + apply list_elem_of_In, elem_of_lookup_imap. by exists i, x.
    + by apply bool_decide_eq_true.
Qed.

(** X7.  For any table, the filter that builds the options of the selector
    keeps, for every label, the first entry that carries it and nothing
    else: no label is offered twice, no label of the table is missing, and
    every option is an entry of the table before which the label does not
    occur.  The options of the selector are this filter applied to
    [IMAGE_FORMATS]. *)
Theorem uniqueByLabel_keeps_first (self : list Format) :
  NoDup (label <$> uniqueByLabel self) /\
  (forall x, x ∈ self -> label x ∈ label <$> uniqueByLabel self) /\
  (forall x, x ∈ uniqueByLabel self ->
     exists i, self !! i = Some x /\
               forall j y, j < i -> self !! j = Some y -> label y <> label x) /\
  selectOptions = uniqueByLabel IMAGE_FORMATS.
Proof.
  split; [|split; [|split; [|reflexivity]]].
  - unfold uniqueByLabel. rewrite <- list_fmap_compose.
    apply NoDup_fmap_2_strong.
    + intros [i x] [j y] Hx Hy Hl. cbn in Hl.
      apply list_elem_of_In, filter_In in Hx as [Hx Hpx].
      apply list_elem_of_In, filter_In in Hy as [Hy Hpy].
      apply bool_decide_eq_true in Hpx, Hpy.
      apply list_elem_of_In, elem_of_lookup_imap in Hx as (i' & x' & [= -> ->] & Hx).
      apply list_elem_of_In, elem_of_lookup_imap in Hy as (j' & y' & [= -> ->] & Hy).
      rewrite Hl in Hpx. rewrite Hpx in Hpy. injection Hpy as ->. congruence.
    + apply NoDup_ListNoDup, List.NoDup_filter, NoDup_ListNoDup.
      apply (NoDup_fmap_1 fst).
      rewrite fmap_imap.
      rewrite (imap_ext _ (fun j _ => j)) by done.
      rewrite (imap_seq_0 self (fun j => j)), list_fmap_id. apply NoDup_seq.
  - intros x Hx. apply list_elem_of_lookup in Hx as [i Hi].
    destruct (findIndex_first (fun f => String.eqb (label f) (label x)) self i x Hi)
      as (j & Hj & _); [apply String.eqb_refl|].
    destruct (findIndex_Some _ _ _ Hj) as (y & Hy & Hly & _).
    apply String.eqb_eq in Hly. apply list_elem_of_fmap. exists y. split; [done|].
    apply elem_of_uniqueByLabel. exists j. split; [done|]. by rewrite Hly.
  - intros x (i & Hi & Hfirst)%elem_of_uniqueByLabel. exists i. split; [done|].
    destruct (findIndex_Some _ _ _ Hfirst) as (_ & _ & _ & Hbefore).
    intros j y Hj Hy Hl. specialize (Hbefore j y Hj Hy). cbn in Hbefore.
    rewrite Hl, String.eqb_refl in Hbefore. done.
Qed.

(** ** How the handlers compose *)

Section Algebra.
Context {S : Type} `{Host S}.

Lemma mapM_app {A B} (f : A -> M S B) (xs ys : list A) (w : World S) :
  mapM f (xs ++ ys) w =
  match mapM f xs w with
  | (Ok a, w1) =>
      match mapM f ys w1 with
      | (Ok b, w2) => (Ok (a ++ b), w2)
      | (Throw e, w2) => (Throw e, w2)
      end
  | (Throw e, w1) => (Throw e, w1)
  end.
Proof.
  revert w. induction xs as [|x xs IH]; intros w.
  - cbn. by destruct (mapM f ys w) as [[b|e] w2].
  - change ((x :: xs) ++ ys) with (x :: (xs ++ ys)). cbn [mapM].
    unfold bind, ret. destruct (f x w) as [[y|e] w1]; [|done].
    rewrite IH. destruct (mapM f xs w1) as [[a|e] w2]; [|done].
    by destruct (mapM f ys w2) as [[b|e] w3].
Qed.

(** What [onDrop] creates depends on the host alone. *)
Lemma mapM_newFile_host (fs : list File) (w w' : World S) :
  host w = host w' ->
  exists newFiles h',
    mapM newFile fs w =
      (Ok newFiles,
       {| host := h'; files := files w; calls := calls w; console := console w;
          tokens := tokens w ++ (id <$> newFiles) |}) /\
    mapM newFile fs w' =
      (Ok newFiles,
       {| host := h'; files := files w'; calls := calls w'; console := console w';
          tokens := tokens w' ++ (id <$> newFiles) |}).
Proof.
  revert w w'. induction fs as [|f fs IH]; intros w w' Hh.
  - exists [], (host w). cbn. rewrite !app_nil_r. rewrite Hh at 2.
    by destruct w, w'.
  - cbn [mapM]. unfold bind at 1 3.
    assert (exists t u h1,
      newFile f w = (Ok {| file := f; id := t; status := pending; preview := u;
                            outputUrl := None;
                            outputFormat := Some (if isImage f then "png" else "mp4") |},
                     {| host := h1; files := files w; calls := calls w;
                        console := console w; tokens := tokens w ++ [t] |}) /\
      newFile f w' = (Ok {| file := f; id := t; status := pending; preview := u;
                             outputUrl := None;
                             outputFormat := Some (if isImage f then "png" else "mp4") |},
                      {| host := h1; files := files w'; calls := calls w';
                         console := console w'; tokens := tokens w' ++ [t] |}))
      as (t & u & h1 & -> & ->).
    { unfold newFile, bind, random_token, URL_createObjectURL, host_call, ret.
      rewrite <- Hh.
      destruct (host_random_token (host w)) as [t h1]. cbn.
      destruct (host_createObjectURL (inl f) h1) as [u h2]. cbn.
      exists t, u, h2. by rewrite !app_nil_r. }
    unfold bind at 1 2.
    match goal with |- context [match mapM newFile fs ?w1 with _ => _ end] =>
      match goal with |- context [(_ = _) /\ (match mapM newFile fs ?w2 with _ => _ end) = _] =>
        destruct (IH w1 w2 eq_refl) as (news & h' & -> & ->) end end.
    cbn.
    exists ({| file := f; id := t; status := pending; preview := u;
               outputUrl := None;
               outputFormat := Some (if isImage f then "png" else "mp4") |} :: news), h'.
    rewrite fmap_cons, <- !app_assoc. done.
Qed.

(** X8.  Dropping files in two batches is the same as dropping them in
    one: the list, the tokens drawn and the state of the host come out
    equal.  Dropping nothing leaves list, tokens and calls as they are. *)
Theorem onDrop_batches (xs ys : list File) (w : World S) :
  snd (onDrop (xs ++ ys) w) = snd (onDrop ys (snd (onDrop xs w))) /\
  files (snd (onDrop [] w)) = files w /\
  tokens (snd (onDrop [] w)) = tokens w /\
  calls (snd (onDrop [] w)) = calls w.
Proof.
  split.
  - unfold onDrop, bind, setFiles. rewrite mapM_app.
    destruct (mapM_newFile xs w) as (n1 & h1 & -> & _). cbn.
    match goal with |- context [snd (let (r, w') := mapM newFile ys ?w2 in _)] =>
      match goal with |- context [let (r, wa) := mapM newFile ys ?w1 in
                                  match r with Ok b => (Ok (n1 ++ b), wa) | _ => _ end] =>
        destruct (mapM_newFile_host ys w1 w2 eq_refl) as (n2 & h2 & -> & ->) end end.
    cbn. by rewrite !app_assoc.
  - cbn. by rewrite app_nil_r.
Qed.

(** X9.  Requested formats are overwritten by id: of two calls of
    [updateOutputFormat] with the same id the later one decides, and calls
    with different ids can be swapped. *)
Theorem updateOutputFormat_composes (i j format1 format2 : string) (w : World S) :
  snd (updateOutputFormat i format2 (snd (updateOutputFormat i format1 w)))
    = snd (updateOutputFormat i format2 w) /\
  (i <> j ->
   snd (updateOutputFormat j format2 (snd (updateOutputFormat i format1 w)))
     = snd (updateOutputFormat i format1 (snd (updateOutputFormat j format2 w)))).
Proof.
  unfold updateOutputFormat, setFiles. cbn [snd files host calls console tokens]. split.
  - f_equal. rewrite map_id_twice by done. unfold map_id. apply list_fmap_ext.
    intros _ f _. by destruct (String.eqb (id f) i).
  - intros Hne. f_equal. unfold map_id. rewrite <- !list_fmap_compose.
    apply list_fmap_ext. intros _ f _. cbn.
    destruct (String.eqb_spec (id f) i) as [Hi|Hi], (String.eqb_spec (id f) j) as [Hj|Hj];
      cbn; rewrite ?Hi, ?Hj, ?String.eqb_refl; try congruence.
    + by destruct (String.eqb_spec i j).
    + by destruct (String.eqb_spec j i).
    + by destruct (String.eqb_spec (id f) i), (String.eqb_spec (id f) j).
Qed.


(** X10.  Removing an entry again changes nothing, removals can be
    swapped, and while ids are distinct the removal of a tracked entry
    shortens the list by exactly one. *)
Theorem removeFile_composes (f g : ProcessedFile) (w : World S) :
  snd (removeFile f (snd (removeFile f w))) = snd (removeFile f w) /\
  snd (removeFile g (snd (removeFile f w))) = snd (removeFile f (snd (removeFile g w))) /\
  (NoDup (id <$> files w) -> f ∈ files w ->
   length (files w) = length (files (snd (removeFile f w))) + 1).
Proof.
  unfold removeFile, setFiles. cbn. split; [|split].
  - f_equal. rewrite list_filter_filter. apply list_filter_iff. tauto.
  - f_equal. rewrite !list_filter_filter. apply list_filter_iff. tauto.
  - rewrite Nat.add_1_r. intros Hnd Hin. symmetry. revert Hnd Hin.
    generalize (files w). intros l. induction l as [|x l IH]; [by intros _ ?%elem_of_nil|].
    rewrite fmap_cons, NoDup_cons. intros [Hx Hnd] Hin.
    rewrite filter_cons. destruct (decide (id x <> id f)) as [Hne|He].
    + cbn. f_equal. apply IH; [done|].
      apply elem_of_cons in Hin as [->|Hin]; [done|done].
    + f_equal. assert (id x = id f) as Hid by (by destruct (decide (id x = id f))).
      clear IH Hin. induction l as [|y l IH]; [done|].
      rewrite filter_cons. rewrite fmap_cons, not_elem_of_cons in Hx.
      destruct Hx as [Hy Hx]. apply NoDup_cons in Hnd as [_ Hnd].
      destruct (decide (id y <> id f)) as [_|Hyf]; [cbn; f_equal; by apply IH|].
      destruct Hy. rewrite Hid. by destruct (decide (id y = id f)).
Qed.

End Algebra.

Lemma updateOutputFormat_composes_witness :
  "a" <> "b" /\
  files (snd (updateOutputFormat "b" "gif"
                (snd (updateOutputFormat "a" "jpg"
                        (empty_world [] [entry photo "a" pending "png";
                                         entry photo "b" pending "png"])))))
  = [entry photo "a" pending "jpg"; entry photo "b" pending "gif"].
Proof.
  assert ("a" <> "b") as Hne by discriminate.
  split; [exact Hne|].
  rewrite (proj2 (updateOutputFormat_composes "a" "b" "jpg" "gif"
                    (empty_world [] [entry photo "a" pending "png";
                                     entry photo "b" pending "png"])) Hne).
  reflexivity.
Defined.

Lemma removeFile_composes_witness :
  NoDup (id <$> [entry photo "a" pending "png"; entry clip "b" pending "mp4"]) /\
  entry clip "b" pending "mp4" ∈ [entry photo "a" pending "png"; entry clip "b" pending "mp4"] /\
  2 = length (files (snd (removeFile (entry clip "b" pending "mp4")
                            (empty_world [] [entry photo "a" pending "png";
                                             entry clip "b" pending "mp4"])))) + 1.
Proof.
  assert (NoDup (id <$> [entry photo "a" pending "png"; entry clip "b" pending "mp4"]))
    as Hnd.
  { apply (bool_decide_unpack _). vm_compute. reflexivity. }
  assert (entry clip "b" pending "mp4"
            ∈ [entry photo "a" pending "png"; entry clip "b" pending "mp4"]) as Hin.
  { apply elem_of_cons. right. apply elem_of_cons. by left. }
  split; [exact Hnd|]. split; [exact Hin|].
  exact (proj2 (proj2 (removeFile_composes (entry clip "b" pending "mp4")
                         (entry clip "b" pending "mp4")
                         (empty_world [] [entry photo "a" pending "png";
                                          entry clip "b" pending "mp4"]))) Hnd Hin).
Defined.

(** ** One conversion seen from the engine *)

Section Protocol.
Context {S : Type} `{Host S}.

Lemma convertFile_try_calls (fileObj : ProcessedFile) (w : World S) :
  let data := match fst (host_fetchFile (file fileObj) (host w)) with
              | Ok d => d
              | Throw _ => []
              end in
  exists body,
    calls (snd (try_catch (convertFile_try fileObj) (convertFile_catch fileObj) w))
      = calls w ++ body /\
    body `prefix_of` [ Call_writeFile (inputName fileObj) data;
                       Call_exec (execArgs fileObj);
                       Call_readFile (outputName fileObj) ] /\
    (fst (convertFile_try fileObj w) = Ok tt ->
     body = [ Call_writeFile (inputName fileObj) data;
              Call_exec (execArgs fileObj);
              Call_readFile (outputName fileObj) ]).
Proof.
  unfold try_catch, convertFile_try. rewrite exec_branches. unfold_handlers. cbn.
  repeat step_host;
    (eexists; split;
     [ rewrite <- ?app_assoc; reflexivity
     | split; [ cbn; eexists; reflexivity | cbn; intros; done ] ]).
Qed.

(** X11.  The engine sees the calls of one conversion in a fixed order:
    an initial part of the sequence write, command, read, then the
    deletion of the input, then possibly the deletion of the output, and
    nothing else.  When the [try] block runs to its end, all three of
    write, command and read were issued. *)
Theorem conversion_call_order (fileObj : ProcessedFile) (w : World S) :
  let data := match fst (host_fetchFile (file fileObj) (host w)) with
              | Ok d => d
              | Throw _ => []
              end in
  let steps := [ Call_writeFile (inputName fileObj) data;
                 Call_exec (execArgs fileObj);
                 Call_readFile (outputName fileObj) ] in
  exists body cleanup,
    calls (snd (convertFile_resume fileObj w)) = calls w ++ body ++ cleanup /\
    body `prefix_of` steps /\
    (cleanup = [Call_deleteFile (inputName fileObj)] \/
     cleanup = [Call_deleteFile (inputName fileObj);
                Call_deleteFile (outputName fileObj)]) /\
    (fst (convertFile_try fileObj w) = Ok tt -> body = steps).
Proof.
  cbn. destruct (convertFile_try_calls fileObj w) as (body & Hbody & Hpre & Hfull).
  unfold convertFile_resume, try_finally.
  destruct (try_catch _ _ w) as [r w1] eqn:E. cbn in Hbody.
  pose proof (cleanup_output_after_input fileObj w1) as Hclean.
  pose proof (convertFile_finally_frame fileObj w1) as (Hok & _).
  destruct (convertFile_finally fileObj w1) as [[[]|e] w2]; [|done]. cbn in *.
  exists body. eexists. split; [rewrite Hclean, Hbody, <- app_assoc; reflexivity|].
  split; [done|]. split; [|done].
  destruct (fst (host_deleteFile _ _)); auto.
Qed.

(** X12.  Whatever the host does, [convertFile] returns normally, and it
    reports on the console exactly when it sets the status to [error]:
    either one "Conversion Error:" entry is added and the entries with the
    id become [error], or nothing is added and they become [completed]. *)
Theorem conversion_reports_failure (fileObj : ProcessedFile) (w : World S) :
  fst (convertFile fileObj w) = Ok tt /\
  ((exists err,
      console (snd (convertFile_resume fileObj w))
        = console w ++ [("Conversion Error:", err)] /\
      files (snd (convertFile_resume fileObj w))
        = map_id (id fileObj) (with_status error) (files w)) \/
   (exists url,
      console (snd (convertFile_resume fileObj w)) = console w /\
      files (snd (convertFile_resume fileObj w))
        = map_id (id fileObj) (with_completed url) (files w))).
Proof.
  split.
  - rewrite convertFile_split.
    by destruct (convertFile_resume_files fileObj (snd (convertFile_begin fileObj w)))
      as (_ & _ & _ & _ & ->).
  - unfold convertFile_resume, try_finally, try_catch, convertFile_try.
    rewrite exec_branches. unfold_handlers. cbn.
    repeat step_host; eauto.
Qed.

End Protocol.

(** ** Loading the engine *)

Section Loading.
Context {S : Type} `{Host S} `{LoaderHost S}.
Variables coreURL wasmURL : string.

Lemma loadFFmpeg_frame (p : Page S) :
  files (world (app (loadFFmpeg coreURL wasmURL p))) = files (world (app p)) /\
  running (app (loadFFmpeg coreURL wasmURL p)) = running (app p) /\
  calls (world (app (loadFFmpeg coreURL wasmURL p))) = calls (world (app p)) /\
  tokens (world (app (loadFFmpeg coreURL wasmURL p))) = tokens (world (app p)) /\
  mounted (loadFFmpeg coreURL wasmURL p) = mounted p /\
  (ready p = true -> ready (loadFFmpeg coreURL wasmURL p) = true).
Proof.
  unfold loadFFmpeg, loadFFmpeg_try, toBlobURL, ffmpeg_load, bind, host_call,
    console_error. cbn.
  destruct (host_toBlobURL coreURL _ _) as [[core|e] h1]; cbn;
    [destruct (host_toBlobURL wasmURL _ _) as [[wasm|e] h2]; cbn;
      [destruct (host_load core wasm h2) as [[[]|e] h3]; cbn|]|];
    rewrite ?app_nil_r; done.
Qed.

Lemma loadFFmpeg_failure (p : Page S) (err : exn) :
  load_fails coreURL wasmURL (host (world (app p))) err ->
  ready (loadFFmpeg coreURL wasmURL p) = ready p /\
  console_log (loadFFmpeg coreURL wasmURL p) = console_log p /\
  console (world (app (loadFFmpeg coreURL wasmURL p)))
    = console (world (app p)) ++ [("Критическая ошибка загрузки FFmpeg:", err)].
Proof.
  intros Hfail.
  unfold loadFFmpeg, loadFFmpeg_try, toBlobURL, ffmpeg_load, bind, host_call,
    console_error. cbn.
  destruct Hfail as [h1 Hc|core h1 h2 Hc Hw|core h1 wasm h2 h3 Hc Hw Hl];
    rewrite Hc; cbn; try (rewrite Hw; cbn); try (rewrite Hl; cbn); done.
Qed.

(** X13.  [loadFFmpeg] sets the readiness flag when the two blob urls and
    the load of the engine all succeed, and then logs its success.  When
    one of them rejects, the flag stays as it was and the error is
    reported once on the console; nothing is thrown to the caller.  In
    both cases the tracked list is left alone. *)
Theorem loadFFmpeg_outcome (p : Page S) :
  (forall h3,
     load_succeeds coreURL wasmURL (host (world (app p))) h3 ->
     ready (loadFFmpeg coreURL wasmURL p) = true /\
     console_log (loadFFmpeg coreURL wasmURL p)
       = console_log p ++ ["FFmpeg успешно загружен"] /\
     console (world (app (loadFFmpeg coreURL wasmURL p))) = console (world (app p))) /\
  (forall err,
     load_fails coreURL wasmURL (host (world (app p))) err ->
     ready (loadFFmpeg coreURL wasmURL p) = ready p /\
     console_log (loadFFmpeg coreURL wasmURL p) = console_log p /\
     console (world (app (loadFFmpeg coreURL wasmURL p)))
       = console (world (app p)) ++ [("Критическая ошибка загрузки FFmpeg:", err)]) /\
  files (world (app (loadFFmpeg coreURL wasmURL p))) = files (world (app p)).
Proof.
  split; [|split; [|apply loadFFmpeg_frame]].
  - intros h3 (core & h1 & wasm & h2 & Hc & Hw & Hl).
    unfold loadFFmpeg, loadFFmpeg_try, toBlobURL, ffmpeg_load, bind, host_call. cbn.
    rewrite Hc. cbn. rewrite Hw. cbn. rewrite Hl. done.
  - intros err Hfail. by apply loadFFmpeg_failure.
Qed.

(** While the engine is not ready no interface event is enabled in a page
    that tracks nothing. *)
Lemma no_event_before_ready (p : Page S) (e : Event) :
  ready p = false -> files (world (app p)) = [] -> running (app p) = [] ->
  page_enabled p (Ui e) = false.
Proof.
  intros Hr Hf Hrun. destruct e as [fs|f format|f|f|f]; cbn; rewrite ?Hr, ?Hf, ?Hrun.
  - done.
  - rewrite bool_decide_eq_false_2 by apply not_elem_of_nil. done.
  - rewrite bool_decide_eq_false_2 by apply not_elem_of_nil. done.
  - apply bool_decide_eq_false_2, not_elem_of_nil.
  - apply bool_decide_eq_false_2, not_elem_of_nil.
Qed.

Lemma page_step_keeps_empty (p p' : Page S) (e : PageEvent) :
  (ready p = false ->
   files (world (app p)) = [] /\ running (app p) = [] /\ calls (world (app p)) = []) ->
  page_step coreURL wasmURL p e = Some p' ->
  (ready p' = false ->
   files (world (app p')) = [] /\ running (app p') = [] /\ calls (world (app p')) = [])
  /\ (ready p = true -> ready p' = true)
  /\ (mounted p = true -> mounted p' = true).
Proof.
  intros Hinv. unfold page_step.
  destruct (page_enabled p e) eqn:En; [|done]. intros [= <-]. destruct e as [|e].
  - cbn [page_handle].
    match goal with |- context [loadFFmpeg _ _ ?q] =>
      destruct (loadFFmpeg_frame q) as (Hf & Hrun & Hc & _ & Hm & Hr) end.
    cbn in *. rewrite Hf, Hrun, Hc. split; [|split; [done|done]].
    intros Hnot. apply Hinv. destruct (ready p); [|done].
    rewrite Hr in Hnot; done.
  - destruct (ready p) eqn:Hr.
    + cbn. rewrite Hr. split; [done|]. split; done.
    + destruct (Hinv eq_refl) as (Hf & Hrun & _).
      by rewrite (no_event_before_ready p e Hr Hf Hrun) in En.
Qed.

(** X14.  Until the engine is ready nothing can be tracked and the engine
    is asked nothing: in every state a page can reach in which the
    readiness flag is off, the list is empty, no conversion is under way
    and no workspace call was issued.  Once on, the flag stays on. *)
Theorem nothing_before_ready (h : S) (es1 es2 : list PageEvent) (p p' : Page S) :
  page_run coreURL wasmURL (initial_page h) es1 = Some p ->
  page_run coreURL wasmURL p es2 = Some p' ->
  (ready p' = false ->
   files (world (app p')) = [] /\ running (app p') = [] /\ calls (world (app p')) = [])
  /\ (ready p = true -> ready p' = true).
Proof.
  assert (forall es q q',
            (ready q = false ->
             files (world (app q)) = [] /\ running (app q) = [] /\
             calls (world (app q)) = []) ->
            page_run coreURL wasmURL q es = Some q' ->
            (ready q' = false ->
             files (world (app q')) = [] /\ running (app q') = [] /\
             calls (world (app q')) = [])
            /\ (ready q = true -> ready q' = true)) as Hrun.
  { induction es as [|e es IH]; intros q q' Hq; cbn.
    - intros [= <-]. done.
    - destruct (page_step coreURL wasmURL q e) as [q1|] eqn:Hstep; [|done].
      intros Hes. destruct (page_step_keeps_empty q q1 e Hq Hstep) as (H1 & H2 & _).
      destruct (IH q1 q' H1 Hes) as [H3 H4]. split; [done|]. auto. }
  intros Hrun1 Hrun2.
  apply (Hrun es2 p p'); [|done].
  by apply (Hrun es1 (initial_page h) p).
Qed.

(** X15.  A failed load is final.  When the load that runs at mount
    fails, no event is enabled afterwards: every run that starts with the
    mount ends there, not ready, with an empty list. *)
Theorem failed_load_is_final (h : S) (err : exn) (es : list PageEvent) (p : Page S) :
  load_fails coreURL wasmURL h err ->
  page_run coreURL wasmURL (initial_page h) (Mount :: es) = Some p ->
  es = [] /\ ready p = false /\ files (world (app p)) = [].
Proof.
  intros Hfail. cbn [page_run]. unfold page_step. cbn [page_enabled initial_page mounted negb].
  set (p1 := page_handle coreURL wasmURL (initial_page h) Mount).
  assert (ready p1 = false /\ mounted p1 = true /\
          files (world (app p1)) = [] /\ running (app p1) = []) as (Hr & Hm & Hf & Hrun).
  { unfold p1. cbn [page_handle].
    match goal with |- context [loadFFmpeg _ _ ?q] =>
      destruct (loadFFmpeg_failure q err Hfail) as (Hr & _);
      destruct (loadFFmpeg_frame q) as (Hf & Hrun & _ & _ & Hm & _) end.
    by rewrite Hr, Hm, Hf, Hrun. }
  clearbody p1. destruct es as [|e es]; cbn.
  - intros [= <-]. done.
  - unfold page_step. destruct e as [|e].
    + cbn. by rewrite Hm.
    + by rewrite (no_event_before_ready p1 e Hr Hf Hrun).
Qed.

End Loading.

(** ** What holds of every tracked entry *)

Section Tracked.
Context {S : Type} `{Host S}.

Lemma elem_of_take_out_ne c (l : list ProcessedFile) t :
  t ∈ l -> t <> c -> t ∈ take_out c l.
Proof.
  induction l as [|x l IH]; [by intros ?%elem_of_nil|]. cbn [take_out].
  intros [->|Hin]%elem_of_cons Hne.
  - rewrite bool_decide_eq_false_2 by done. by apply elem_of_cons; left.
  - case_bool_decide; [done|]. apply elem_of_cons. right. by apply IH.
Qed.

Lemma step_completed_has_handle (a a' : AppState S) (e : Event) :
  (forall f, f ∈ files (world a) -> status f = completed -> is_Some (outputUrl f)) ->
  step a e = Some a' ->
  forall f, f ∈ files (world a') -> status f = completed -> is_Some (outputUrl f).
Proof.
  intros Hinv Hstep f Hf Hst. apply step_inv in Hstep.
  destruct e as [fs|c format|c|c|c].
  - destruct Hstep as (news & Hfiles & _ & _ & Hnew). rewrite Hfiles in Hf.
    apply elem_of_app in Hf as [Hf|Hf]; [by apply Hinv|].
    destruct (Hnew f Hf) as [Hp _]. congruence.
  - destruct Hstep as (_ & _ & _ & Hfiles & _). rewrite Hfiles in Hf.
    apply elem_of_map_id in Hf as (g & Hg & [[_ ->]|[_ ->]]); exact (Hinv g Hg Hst).
  - destruct Hstep as (_ & _ & Hfiles & _). rewrite Hfiles in Hf.
    apply elem_of_map_id in Hf as (g & Hg & [[_ ->]|[_ ->]]); [done|by apply Hinv].
  - destruct Hstep as (_ & upd & Hupd & Hfiles & _). rewrite Hfiles in Hf.
    apply elem_of_map_id in Hf as (g & Hg & [[_ ->]|[_ ->]]); [|by apply Hinv].
    destruct Hupd as [->|[url ->]]; [done|]. by eexists.
  - destruct Hstep as (_ & Hfiles & _). rewrite Hfiles in Hf.
    apply list_elem_of_filter in Hf as [_ Hf]. by apply Hinv.
Qed.

(** X16.  In every state reached through the interface a [completed]
    entry carries an output handle; the red text of a row can only appear
    for a handle that [URL.createObjectURL] returned empty. *)
Theorem completed_has_handle (h : S) (es : list Event) (a : AppState S) :
  run (initial h) es = Some a ->
  forall f, f ∈ files (world a) ->
    (status f = completed -> exists url, outputUrl f = Some url) /\
    (row_failed (renderRow f) = true -> outputUrl f = Some "").
Proof.
  assert (forall es a0 a1,
            (forall f, f ∈ files (world a0) -> status f = completed ->
                       is_Some (outputUrl f)) ->
            run a0 es = Some a1 ->
            forall f, f ∈ files (world a1) -> status f = completed ->
                      is_Some (outputUrl f)) as Hrun.
  { clear es a. induction es as [|e es IH]; intros a0 a1 Hinv; cbn.
    - by intros [= <-].
    - destruct (step a0 e) as [a2|] eqn:Hstep; [|done]. apply IH.
      by eapply step_completed_has_handle. }
  intros Hes f Hf.
  assert (status f = completed -> is_Some (outputUrl f)) as Hc.
  { apply (Hrun es (initial h) a); [|done|done]. by intros g ?%elem_of_nil. }
  split; [exact Hc|].
  unfold renderRow. cbn. intros [Hst Hurl]%andb_prop.
  apply bool_decide_eq_true in Hst. destruct (Hc Hst) as [url Hu].
  rewrite Hu in *. by destruct url.
Qed.

Lemma step_converting_is_running (a a' : AppState S) (e : Event) :
  (forall f, f ∈ files (world a) -> status f = converting -> id f ∈ id <$> running a) ->
  step a e = Some a' ->
  forall f, f ∈ files (world a') -> status f = converting -> id f ∈ id <$> running a'.
Proof.
  intros Hinv Hstep f Hf Hst. apply step_inv in Hstep.
  destruct e as [fs|c format|c|c|c].
  - destruct Hstep as (news & Hfiles & _ & Hr & Hnew). rewrite Hr. rewrite Hfiles in Hf.
    apply elem_of_app in Hf as [Hf|Hf]; [by apply Hinv|].
    destruct (Hnew f Hf) as [Hp _]. congruence.
  - destruct Hstep as (_ & _ & _ & Hfiles & _ & Hr). rewrite Hr. rewrite Hfiles in Hf.
    apply elem_of_map_id in Hf as (g & Hg & [[_ ->]|[_ ->]]); exact (Hinv g Hg Hst).
  - destruct Hstep as (_ & _ & Hfiles & _ & Hr). rewrite Hr. rewrite Hfiles in Hf.
    rewrite fmap_app, elem_of_app.
    apply elem_of_map_id in Hf as (g & Hg & [[Hid ->]|[_ ->]]).
    + right. cbn. rewrite Hid. by apply list_elem_of_singleton.
    + left. by apply Hinv.
  - destruct Hstep as (_ & upd & Hupd & Hfiles & _ & Hr). rewrite Hr. rewrite Hfiles in Hf.
    apply elem_of_map_id in Hf as (g & Hg & [[_ ->]|[Hne ->]]).
    + by destruct Hupd as [->|[url ->]].
    + apply Hinv in Hg; [|done]. apply list_elem_of_fmap in Hg as (t & Hid & Ht).
      apply list_elem_of_fmap. exists t. split; [done|].
      apply elem_of_take_out_ne; [done|]. intros ->. by destruct Hne.
  - destruct Hstep as (_ & Hfiles & _ & Hr). rewrite Hr. rewrite Hfiles in Hf.
    apply list_elem_of_filter in Hf as [_ Hf]. by apply Hinv.
Qed.

(** X17.  In every state reached through the interface an entry is
    [converting] only while a conversion with its id is under way: when
    no conversion is left to resume, no row shows the progress indicator.
    If moreover the random tokens never repeat, the entries that a
    conversion under way will update are [converting]. *)
Theorem converting_means_under_way (h : S) (es : list Event) (a : AppState S) :
  run (initial h) es = Some a ->
  (forall f, f ∈ files (world a) -> status f = converting ->
             exists t, t ∈ running a /\ id t = id f) /\
  (running a = [] ->
   forall f, f ∈ files (world a) -> row_spinner (renderRow f) = false) /\
  (NoDup (tokens (world a)) ->
   forall t f, t ∈ running a -> f ∈ files (world a) -> id f = id t ->
               status f = converting).
Proof.
  assert (forall es a0 a1,
            (forall f, f ∈ files (world a0) -> status f = converting ->
                       id f ∈ id <$> running a0) ->
            run a0 es = Some a1 ->
            forall f, f ∈ files (world a1) -> status f = converting ->
                      id f ∈ id <$> running a1) as Hrun.
  { clear es a. induction es as [|e es IH]; intros a0 a1 Hinv; cbn.
    - by intros [= <-].
    - destruct (step a0 e) as [a2|] eqn:Hstep; [|done]. apply IH.
      by eapply step_converting_is_running. }
  intros Hes.
  assert (forall f, f ∈ files (world a) -> status f = converting ->
                    id f ∈ id <$> running a) as Hconv.
  { apply (Hrun es (initial h) a); [|done]. by intros g ?%elem_of_nil. }
  split; [|split].
  - intros f Hf Hst. apply Hconv in Hf; [|done].
    apply list_elem_of_fmap in Hf as (t & Hid & Ht). by exists t.
  - intros Hnone f Hf. cbn. apply bool_decide_eq_false_2. intros Hst.
    apply Hconv in Hf; [|done]. rewrite Hnone in Hf. by apply elem_of_nil in Hf.
  - intros Htok. apply (running_converting a). by eapply reachable_consistent.
Qed.

Lemma step_format_offered (a a' : AppState S) (e : Event) :
  consistent a ->
  (forall f, f ∈ files (world a) -> format_offered f) ->
  step a e = Some a' ->
  forall f, f ∈ files (world a') -> format_offered f.
Proof.
  intros Ha Hinv Hstep f Hf.
  assert (enabled a e = true) as En.
  { unfold step in Hstep. by destruct (enabled a e). }
  destruct e as [fs|c format|c|c|c]; [|apply step_inv in Hstep..].
  - unfold step in Hstep. cbn in Hstep. injection Hstep as <-.
    cbn in Hf. unfold onDrop, bind, setFiles in Hf.
    destruct (mapM_newFile fs (world a)) as (news & h' & Hrun & HF).
    rewrite Hrun in Hf. cbn in Hf.
    apply elem_of_app in Hf as [Hf|Hf]; [by apply Hinv|].
    apply list_elem_of_lookup in Hf as [i Hi].
    destruct (Forall2_lookup_r _ _ _ _ _ HF Hi) as (x & _ & <- & _ & _ & Hfmt).
    eexists. split; [exact Hfmt|]. destruct (isImage (file f)); [|done].
    apply (bool_decide_unpack _). vm_compute. reflexivity.
  - destruct Hstep as (Hc & _ & Himg & Hfiles & _). rewrite Hfiles in Hf.
    apply elem_of_map_id in Hf as (g & Hg & [[Hid ->]|[_ ->]]); [|by apply Hinv].
    rewrite (same_id_same_entry _ g c (ids_distinct a Ha) Hg Hc Hid).
    exists format. split; [done|]. cbn. rewrite Himg.
    cbn in En. apply andb_prop in En as [_ Hopt]. by apply bool_decide_eq_true in Hopt.
  - destruct Hstep as (_ & _ & Hfiles & _). rewrite Hfiles in Hf.
    apply elem_of_map_id in Hf as (g & Hg & [[_ ->]|[_ ->]]); exact (Hinv g Hg).
  - destruct Hstep as (_ & upd & Hupd & Hfiles & _). rewrite Hfiles in Hf.
    apply elem_of_map_id in Hf as (g & Hg & [[_ ->]|[_ ->]]); [|by apply Hinv].
    destruct Hupd as [->|[url ->]]; exact (Hinv g Hg).
  - destruct Hstep as (_ & Hfiles & _). rewrite Hfiles in Hf.
    apply list_elem_of_filter in Hf as [_ Hf]. by apply Hinv.
Qed.

Lemma run_format_offered (es : list Event) (a a' : AppState S) :
  consistent a ->
  (forall f, f ∈ files (world a) -> format_offered f) ->
  run a es = Some a' -> NoDup (tokens (world a')) ->
  forall f, f ∈ files (world a') -> format_offered f.
Proof.
  revert a. induction es as [|e es IH]; intros a Ha Hinv; cbn.
  - by intros [= <-].
  - destruct (step a e) as [a1|] eqn:Hstep; [|done]. intros Hrun Htok.
    assert (NoDup (tokens (world a1))) as Htok1.
    { destruct (run_tokens _ _ _ Hrun) as [more Hmore].
      rewrite Hmore in Htok. by apply NoDup_app in Htok as (? & _). }
    apply (IH a1); [by eapply step_consistent| |done|done].
    by eapply step_format_offered.
Qed.

Lemma run_app_inv (es1 : list Event) (e : Event) (es2 : list Event)
    (a a' : AppState S) :
  run a (es1 ++ e :: es2) = Some a' ->
  exists a1 a2, run a es1 = Some a1 /\ step a1 e = Some a2 /\ run a2 es2 = Some a'.
Proof.
  revert a. induction es1 as [|x es1 IH]; intros a; cbn.
  - destruct (step a e) as [a2|] eqn:Hstep; [|done]. intros Hrun. by exists a, a2.
  - destruct (step a x) as [a0|]; [|done]. apply IH.
Qed.

Lemma step_running_agrees (a a' : AppState S) (e : Event) :
  consistent a -> running_agrees a ->
  step a e = Some a' -> NoDup (tokens (world a')) -> running_agrees a'.
Proof.
  intros Ha Hinv Hstep Htok t f Ht Hf Hid. apply step_inv in Hstep.
  destruct e as [fs|c format|c|c|c].
  - destruct Hstep as (news & Hfiles & Htokens & Hr & _).
    rewrite Hr in Ht. rewrite Hfiles in Hf.
    apply elem_of_app in Hf as [Hf|Hf]; [by apply Hinv|].
    exfalso. rewrite Htokens in Htok. apply NoDup_app in Htok as (_ & Hfresh & _).
    apply (Hfresh (id t)); [by apply (running_drawn a)|].
    rewrite <- Hid. apply list_elem_of_fmap. by exists f.
  - destruct Hstep as (Hc & Hpend & _ & Hfiles & _ & Hr).
    rewrite Hr in Ht. rewrite Hfiles in Hf.
    apply elem_of_map_id in Hf as (g & Hg & [[Hgid ->]|[_ ->]]); [|by apply Hinv].
    exfalso. cbn in Hid.
    pose proof (running_converting a Ha t c Ht Hc) as Hconv.
    rewrite Hconv in Hpend; [done|]. congruence.
  - destruct Hstep as (Hc & Hpend & Hfiles & _ & Hr).
    rewrite Hr in Ht. rewrite Hfiles in Hf.
    apply elem_of_map_id in Hf as (g & Hg & [[Hgid ->]|[Hne ->]]).
    + rewrite (same_id_same_entry _ g c (ids_distinct a Ha) Hg Hc Hgid) in *.
      cbn in Hid. cbn.
      apply elem_of_app in Ht as [Ht| ->%list_elem_of_singleton]; [|done].
      exfalso. pose proof (running_converting a Ha t c Ht Hc Hid) as Hconv.
      congruence.
    + apply elem_of_app in Ht as [Ht| ->%list_elem_of_singleton]; [by apply Hinv|].
      by destruct Hne.
  - destruct Hstep as (Hc & upd & Hupd & Hfiles & _ & Hr).
    rewrite Hr in Ht. rewrite Hfiles in Hf.
    apply (elem_of_take_out c _ t (running_distinct a Ha)) in Ht as [Ht _].
    apply elem_of_map_id in Hf as (g & Hg & [[Hgid ->]|[_ ->]]); [|by apply Hinv].
    destruct Hupd as [->|[url ->]]; cbn in *; by apply Hinv.
  - destruct Hstep as (_ & Hfiles & _ & Hr).
    rewrite Hr in Ht. rewrite Hfiles in Hf.
    apply list_elem_of_filter in Hf as [_ Hf]. by apply Hinv.
Qed.

Lemma run_running_agrees (es : list Event) (a a' : AppState S) :
  consistent a -> running_agrees a ->
  run a es = Some a' -> NoDup (tokens (world a')) -> running_agrees a'.
Proof.
  revert a. induction es as [|e es IH]; intros a Ha Hinv; cbn.
  - by intros [= <-].
  - destruct (step a e) as [a1|] eqn:Hstep; [|done]. intros Hrun Htok.
    assert (NoDup (tokens (world a1))) as Htok1.
    { destruct (run_tokens _ _ _ Hrun) as [more Hmore].
      rewrite Hmore in Htok. by apply NoDup_app in Htok as (? & _). }
    apply (IH a1); [by eapply step_consistent| |done|done].
    by eapply step_running_agrees.
Qed.

Lemma step_converted_as (t : ProcessedFile) (a a' : AppState S) (e : Event) :
  id t ∈ tokens (world a) -> converted_as t a ->
  step a e = Some a' -> NoDup (tokens (world a')) -> converted_as t a'.
Proof.
  intros Hdrawn Hinv Hstep Htok f Hf Hid. apply step_inv in Hstep.
  destruct e as [fs|c format|c|c|c].
  - destruct Hstep as (news & Hfiles & Htokens & _). rewrite Hfiles in Hf.
    apply elem_of_app in Hf as [Hf|Hf]; [by apply Hinv|].
    exfalso. rewrite Htokens in Htok. apply NoDup_app in Htok as (_ & Hfresh & _).
    apply (Hfresh (id t)); [done|].
    rewrite <- Hid. apply list_elem_of_fmap. by exists f.
  - destruct Hstep as (Hc & Hpend & _ & Hfiles & _). rewrite Hfiles in Hf.
    apply elem_of_map_id in Hf as (g & Hg & [[Hgid ->]|[_ ->]]); [|by apply Hinv].
    exfalso. cbn in Hid. destruct (Hinv c Hc) as (_ & _ & Hnp); [congruence|done].
  - destruct Hstep as (Hc & Hpend & Hfiles & _). rewrite Hfiles in Hf.
    apply elem_of_map_id in Hf as (g & Hg & [[Hgid ->]|[_ ->]]); [|by apply Hinv].
    exfalso. cbn in Hid. destruct (Hinv c Hc) as (_ & _ & Hnp); [congruence|done].
  - destruct Hstep as (_ & upd & Hupd & Hfiles & _). rewrite Hfiles in Hf.
    apply elem_of_map_id in Hf as (g & Hg & [[Hgid ->]|[_ ->]]); [|by apply Hinv].
    destruct Hupd as [->|[url ->]]; cbn in *;
      (destruct (Hinv g Hg Hid) as (Hfile & Hfmt & _); done).
  - destruct Hstep as (_ & Hfiles & _). rewrite Hfiles in Hf.
    apply list_elem_of_filter in Hf as [_ Hf]. by apply Hinv.
Qed.

Lemma run_converted_as (t : ProcessedFile) (es : list Event) (a a' : AppState S) :
  id t ∈ tokens (world a) -> converted_as t a ->
  run a es = Some a' -> NoDup (tokens (world a')) -> converted_as t a'.
Proof.
  revert a. induction es as [|e es IH]; intros a Hdrawn Hinv; cbn.
  - by intros [= <-].
  - destruct (step a e) as [a1|] eqn:Hstep; [|done]. intros Hrun Htok.
    assert (NoDup (tokens (world a1))) as Htok1.
    { destruct (run_tokens _ _ _ Hrun) as [more Hmore].
      rewrite Hmore in Htok. by apply NoDup_app in Htok as (? & _). }
    apply (IH a1); [|by eapply step_converted_as|done|done].
    destruct (step_tokens _ _ _ Hstep) as [m ->]. apply elem_of_app. by left.
Qed.

Lemma offered_formats_agree (f t : ProcessedFile) :
  format_offered f -> outputFormat f = outputFormat t ->
  currentFormat f = requestedFormat t.
Proof.
  intros (fmt & Hfmt & Hopt) Heq. unfold currentFormat, requestedFormat.
  rewrite <- Heq, Hfmt. destruct fmt as [|c0 fmt0]; [|done].
  exfalso. destruct (isImage (file f)); [|done].
  revert Hopt. apply (bool_decide_unpack _). vm_compute. reflexivity.
Qed.

(** X18.  As long as the random tokens never repeat, every entry tracked
    in a state reached through the interface requests a format the
    interface offers: an option of the selector when its file is
    image-typed, "mp4" otherwise.  It resolves to a MIME type of the table
    (no inherited member is ever returned), and for a file that is not
    image-typed that MIME type is "image/png".  The format shown in the
    download name is the one the conversion uses: a conversion under way
    was started on the file and with the format of the tracked entry with
    its id, and after a conversion has run on, at any later point of the
    run, the entries with its id have the file it read and show in their
    download name the format it requested. *)
Theorem tracked_formats_are_offered (h : S) (es : list Event) (a : AppState S) :
  run (initial h) es = Some a -> NoDup (tokens (world a)) ->
  (forall f, f ∈ files (world a) ->
     format_offered f /\
     currentFormat f = requestedFormat f /\
     (exists fmt, fmt ∈ IMAGE_FORMATS /\
                  getMimeType (requestedFormat f) = Js.Str (mime fmt)) /\
     (isImage (file f) = false ->
      getMimeType (requestedFormat f) = Js.Str "image/png")) /\
  (forall t f, t ∈ running a -> f ∈ files (world a) -> id f = id t ->
     file f = file t /\ currentFormat f = requestedFormat t) /\
  (forall es1 t es2, es = es1 ++ Resume t :: es2 ->
     forall f, f ∈ files (world a) -> id f = id t ->
       file f = file t /\ currentFormat f = requestedFormat t /\
       downloadName f = "converted_" +:+ baseName f +:+ "." +:+ requestedFormat t).
Proof.
  intros Hrun Htok.
  assert (forall f, f ∈ files (world a) -> format_offered f) as Hoffered.
  { apply (run_format_offered es (initial h) a); try done.
    - apply initial_consistent.
    - by intros g ?%elem_of_nil. }
  split; [|split].
  - intros f Hf. pose proof (Hoffered f Hf) as Hoff.
    split; [exact Hoff|]. split; [by apply offered_formats_agree|].
    destruct Hoff as (fmt & Hfmt & Hopt).
    unfold requestedFormat. rewrite Hfmt.
    destruct (isImage (file f)) eqn:Himg.
    + assert (fmt ∈ ["jpg"; "png"; "webp"; "gif"; "bmp"; "tiff"; "avif"; "ico"])
        as Hcases by exact Hopt.
      assert (match fmt with "" => "png" | _ => fmt end = fmt /\
              exists hit,
                List.find (fun x => String.eqb (value x) (Js.toLowerCase fmt))
                          IMAGE_FORMATS = Some hit /\
                getMimeType fmt = Js.Str (mime hit)) as [Hne (hit & Hfind & Hm)].
      { repeat (apply elem_of_cons in Hcases as [->|Hcases];
                [split; [done|]; eexists; split; vm_compute; reflexivity|]).
        by apply elem_of_nil in Hcases. }
      destruct fmt as [|c0 fmt0]; [done|]. split; [|done].
      exists hit. split; [|done]. apply find_some in Hfind as [Hin _].
      by apply list_elem_of_In.
    + subst fmt. split; [|done].
      exists {| value := "png"; label := "PNG"; mime := "image/png" |}.
      split; [apply list_elem_of_In; cbn; tauto|done].
  - intros t f Ht Hf Hid.
    assert (running_agrees a) as Hagree.
    { apply (run_running_agrees es (initial h) a); try done.
      - apply initial_consistent.
      - by intros ? ? ?%elem_of_nil. }
    destruct (Hagree t f Ht Hf Hid) as [Hfile Hfmt]. split; [done|].
    apply offered_formats_agree; [by apply Hoffered|done].
  - intros es1 t es2 -> f Hf Hid.
    destruct (run_app_inv _ _ _ _ _ Hrun) as (a1 & a2 & Hrun1 & Hstep & Hrun2).
    assert (NoDup (tokens (world a2))) as Htok2.
    { destruct (run_tokens _ _ _ Hrun2) as [more Hmore].
      rewrite Hmore in Htok. by apply NoDup_app in Htok as (? & _). }
    assert (NoDup (tokens (world a1))) as Htok1.
    { destruct (step_tokens _ _ _ Hstep) as [more Hmore].
      rewrite Hmore in Htok2. by apply NoDup_app in Htok2 as (? & _). }
    pose proof (reachable_consistent _ _ _ Hrun1 Htok1) as Ha1.
    assert (running_agrees a1) as Hagree.
    { apply (run_running_agrees es1 (initial h) a1); try done.
      - apply initial_consistent.
      - by intros ? ? ?%elem_of_nil. }
    assert (converted_as t a2) as Hconv2.
    { pose proof Hstep as Hinv. apply step_inv in Hinv.
      destruct Hinv as (Ht & upd & Hupd & Hfiles & _).
      intros g Hg Hgid. rewrite Hfiles in Hg.
      apply elem_of_map_id in Hg as (g0 & Hg0 & [[Hid0 ->]|[Hne ->]]);
        [|by destruct Hne].
      destruct (Hagree t g0 Ht Hg0 Hid0) as [Hfile Hfmt].
      destruct Hupd as [->|[url ->]]; cbn; done. }
    assert (id t ∈ tokens (world a2)) as Hdrawn.
    { apply step_inv in Hstep. destruct Hstep as (Ht & upd & _ & _ & -> & _).
      by apply (running_drawn a1). }
    destruct (run_converted_as t es2 a2 a Hdrawn Hconv2 Hrun2 Htok f Hf Hid)
      as (Hfile & Hfmt & _).
    assert (currentFormat f = requestedFormat t) as Hcur.
    { apply offered_formats_agree; [by apply Hoffered|done]. }
    split; [done|]. split; [done|]. unfold downloadName. by rewrite Hcur.
Qed.

End Tracked.

(** ** The further properties at concrete inputs *)

Lemma loadFFmpeg_outcome_witness :
  load_succeeds "/core.js" "/core.wasm" [] [] /\
  ready (loadFFmpeg "/core.js" "/core.wasm" (initial_page [])) = true /\
  load_fails "/core.js" "/core.wasm" [Fine; Fine; Fail] (Rejected "load") /\
  ready (loadFFmpeg "/core.js" "/core.wasm" (initial_page [Fine; Fine; Fail])) = false.
Proof.
  assert (load_succeeds "/core.js" "/core.wasm" [] []) as Hok.
  { do 4 eexists. repeat split; reflexivity. }
  assert (load_fails "/core.js" "/core.wasm" [Fine; Fine; Fail] (Rejected "load"))
    as Hfail.
  { eapply engine_load_fails; reflexivity. }
  split; [exact Hok|]. split.
  - exact (proj1 (proj1 (loadFFmpeg_outcome "/core.js" "/core.wasm" (initial_page []))
                    [] Hok)).
  - split; [exact Hfail|].
    exact (proj1 (proj1 (proj2 (loadFFmpeg_outcome "/core.js" "/core.wasm"
                                  (initial_page [Fine; Fine; Fail])))
                    (Rejected "load") Hfail)).
Defined.

Lemma nothing_before_ready_witness :
  page_run "/core.js" "/core.wasm" (initial_page [Fail]) [Mount] = Some page_not_loaded /\
  page_run "/core.js" "/core.wasm" page_not_loaded [] = Some page_not_loaded /\
  ready page_not_loaded = false /\
  files (world (app page_not_loaded)) = [].
Proof.
  assert (page_run "/core.js" "/core.wasm" (initial_page [Fail]) [Mount]
          = Some page_not_loaded) as H1 by reflexivity.
  assert (page_run "/core.js" "/core.wasm" page_not_loaded [] = Some page_not_loaded)
    as H2 by reflexivity.
  split; [exact H1|]. split; [exact H2|]. split; [reflexivity|].
  exact (proj1 (proj1 (nothing_before_ready "/core.js" "/core.wasm" [Fail] [Mount] []
                         page_not_loaded page_not_loaded H1 H2) eq_refl)).
Defined.

Lemma failed_load_is_final_witness :
  load_fails "/core.js" "/core.wasm" [Fail] (Rejected "toBlobURL") /\
  page_run "/core.js" "/core.wasm" (initial_page [Fail]) [Mount] = Some page_not_loaded /\
  ready page_not_loaded = false.
Proof.
  assert (load_fails "/core.js" "/core.wasm" [Fail] (Rejected "toBlobURL")) as Hfail.
  { eapply core_url_fails. reflexivity. }
  assert (page_run "/core.js" "/core.wasm" (initial_page [Fail]) [Mount]
          = Some page_not_loaded) as Hrun by reflexivity.
  split; [exact Hfail|]. split; [exact Hrun|].
  exact (proj1 (proj2 (failed_load_is_final "/core.js" "/core.wasm" [Fail]
                         (Rejected "toBlobURL") [] page_not_loaded Hfail Hrun))).
Defined.

Lemma completed_has_handle_witness :
  run (initial [Chars "a"; Chars "blob:1"])
      [Drop [photo]; ClickConvert (dropped_photo pending); Resume (dropped_photo pending)]
    = Some photo_converted /\
  exists url, outputUrl (with_completed "blob:0" (dropped_photo pending)) = Some url.
Proof.
  assert (run (initial [Chars "a"; Chars "blob:1"])
            [Drop [photo]; ClickConvert (dropped_photo pending);
             Resume (dropped_photo pending)]
          = Some photo_converted) as Hrun by (vm_compute; reflexivity).
  split; [exact Hrun|].
  apply (completed_has_handle _ _ _ Hrun (with_completed "blob:0" (dropped_photo pending))).
  - apply list_elem_of_singleton. reflexivity.
  - reflexivity.
Defined.

Lemma converting_means_under_way_witness :
  run (initial [Chars "a"; Chars "blob:1"])
      [Drop [photo]; ClickConvert (dropped_photo pending)]
    = Some photo_converting /\
  exists t, t ∈ running photo_converting /\ id t = id (dropped_photo converting).
Proof.
  assert (run (initial [Chars "a"; Chars "blob:1"])
            [Drop [photo]; ClickConvert (dropped_photo pending)]
          = Some photo_converting) as Hrun by (vm_compute; reflexivity).
  split; [exact Hrun|].
  apply (proj1 (converting_means_under_way _ _ _ Hrun) (dropped_photo converting)).
  - apply list_elem_of_singleton. reflexivity.
  - reflexivity.
Defined.

Lemma tracked_formats_are_offered_witness :
  run (initial [Chars "a"; Chars "blob:1"])
      [Drop [photo]; ClickConvert (dropped_photo pending); Resume (dropped_photo pending)]
    = Some photo_converted /\
  NoDup (tokens (world photo_converted)) /\
  format_offered (with_completed "blob:0" (dropped_photo pending)) /\
  downloadName (with_completed "blob:0" (dropped_photo pending))
    = "converted_photo." +:+ requestedFormat (dropped_photo pending).
Proof.
  assert (run (initial [Chars "a"; Chars "blob:1"])
            [Drop [photo]; ClickConvert (dropped_photo pending);
             Resume (dropped_photo pending)]
          = Some photo_converted) as Hrun by (vm_compute; reflexivity).
  assert (NoDup (tokens (world photo_converted))) as Hnd by apply NoDup_singleton.
  assert (with_completed "blob:0" (dropped_photo pending)
            ∈ files (world photo_converted)) as Hin.
  { apply list_elem_of_singleton. reflexivity. }
  destruct (tracked_formats_are_offered _ _ _ Hrun Hnd) as (Hall & _ & Hdone).
  split; [exact Hrun|]. split; [exact Hnd|]. split.
  - exact (proj1 (Hall _ Hin)).
  - exact (proj2 (proj2 (Hdone [Drop [photo]; ClickConvert (dropped_photo pending)]
                           (dropped_photo pending) [] eq_refl _ Hin eq_refl))).
Defined.
